(** * Ingestion and retrieval pipeline of the RAG backend

  A shallow embedding of the algorithmic core of [src/backend/app]:
  the chunker of [tasks/document_processing.py], the placeholder embedding of
  [tasks/vector_embedding.py], the ingestion tasks over the document store,
  the hybrid fusion of [services/search_service.py] with its HTTP endpoint,
  and the context optimizer of [services/rag_service.py].

  Python values are modelled as follows: [int] is [Z]; [str] is a list of
  Unicode code points; [float] is the kernel's binary64 [float]; [None] and
  raised exceptions are explicit in the result types; a loop that may not
  terminate is run with a bound on its number of iterations. *)

From Stdlib Require Import ZArith NArith List Lia Bool String Ascii.
From Stdlib Require Import Floats Uint63.
From Stdlib Require Import Permutation Sorted.
Import ListNotations.
Local Open Scope Z_scope.
Set Warnings "-inexact-float".

(** ** Python strings and sequences *)

Module Py.

(** A character is a Unicode code point; a [str] is a sequence of them. *)
Definition char := N.
Definition str := list char.

Definition of_string (s : string) : str :=
  List.map N_of_ascii (list_ascii_of_string s).

Definition len {A : Type} (s : list A) : Z := Z.of_nat (List.length s).

(** Index adjustment of a slice bound (step 1): a negative bound counts
    from the end, and every bound is clamped to [0, len]. *)
Definition adjust (n i : Z) : Z :=
  if i <? 0 then Z.max 0 (i + n) else Z.min i n.

(** [s[i:j]] *)
Definition slice {A : Type} (s : list A) (i j : Z) : list A :=
  let n := len s in
  let lo := adjust n i in
  let hi := adjust n j in
  firstn (Z.to_nat (hi - lo)) (skipn (Z.to_nat lo) s).

(** [s[:j]] *)
Definition slice_to {A : Type} (s : list A) (j : Z) : list A := slice s 0 j.

(** [str.isspace] on one character: the code points Python treats as
    whitespace. *)
Definition isspace (c : char) : bool :=
  (((9 <=? c) && (c <=? 13)) || ((28 <=? c) && (c <=? 32))
   || (c =? 133) || (c =? 160) || (c =? 5760)
   || ((8192 <=? c) && (c <=? 8202))
   || (c =? 8232) || (c =? 8233) || (c =? 8239) || (c =? 8287)
   || (c =? 12288))%N.

Fixpoint lstrip (s : str) : str :=
  match s with
  | [] => []
  | c :: r => if isspace c then lstrip r else s
  end.

Definition rstrip (s : str) : str := rev (lstrip (rev s)).

(** [s.strip()] *)
Definition strip (s : str) : str := rstrip (lstrip s).

(** Scan of [s], whose first character has index [i]: the index of the last
    character equal to [c], or [acc] when there is none. *)
Fixpoint last_index (c : char) (s : str) (i acc : Z) : Z :=
  match s with
  | [] => acc
  | x :: r => last_index c r (i + 1) (if N.eqb x c then i else acc)
  end.

(** [s.rfind(c, i, j)] for a one-character [c]: the highest index in
    [s[i:j]] holding [c], or [-1]. *)
Definition rfind (s : str) (c : char) (i j : Z) : Z :=
  last_index c (slice s i j) (adjust (len s) i) (-1).

Definition space : char := 32%N.
Definition newline : char := 10%N.

(** Truth value of a sequence: empty is false. *)
Definition truthy {A : Type} (s : list A) : bool :=
  match s with [] => false | _ :: _ => true end.

(** A string is left-stripped when it does not start with whitespace. *)
Definition lstripped (s : str) : Prop :=
  match s with [] => True | c :: _ => isspace c = false end.

(** [s] holds a character that is not whitespace. *)
Definition has_text (s : str) : bool := existsb (fun c => negb (isspace c)) s.

End Py.

(** ** The chunker: [create_document_chunks] *)

Module Chunker.
Import Py.

(** The loop variables of [create_document_chunks]. *)
Record loop_state : Type := mkState { st_start : Z; st_chunks : list str }.

Definition initial : loop_state := mkState 0 [].

(** The guard [while start < len(text)]. *)
Definition loop_cond (text : str) (st : loop_state) : bool :=
  st_start st <? len text.

(** The window end after the word-boundary search. *)
Definition window_end (text : str) (chunk_size start : Z) : Z :=
  let end_ := start + chunk_size in
  if end_ <? len text then
    let last_space := rfind text space start end_ in
    let last_newline := rfind text newline start end_ in
    let break_point := Z.max last_space last_newline in
    if break_point >? start then break_point + 1 else end_
  else end_.

(** One iteration of the loop body. *)
Definition chunk_step (text : str) (chunk_size overlap : Z)
           (st : loop_state) : loop_state :=
  let start := st_start st in
  let end_ := window_end text chunk_size start in
  let chunk := strip (slice text start end_) in
  let chunks := if truthy chunk then st_chunks st ++ [chunk]
                else st_chunks st in
  let start' := end_ - overlap in
  let start'' := if start' <=? 0 then end_ else start' in
  mkState start'' chunks.

(** The loop state after at most [n] iterations (fewer when the guard
    fails earlier). *)
Fixpoint run_loop (n : nat) (text : str) (chunk_size overlap : Z)
         (st : loop_state) : loop_state :=
  match n with
  | O => st
  | S k =>
      if loop_cond text st
      then run_loop k text chunk_size overlap
                    (chunk_step text chunk_size overlap st)
      else st
  end.

(** The loop run with a bound [fuel] on its iterations: [None] when the
    guard still holds after [fuel] iterations. *)
Definition chunk_loop (fuel : nat) (text : str) (chunk_size overlap : Z)
           (st : loop_state) : option (list str) :=
  let st' := run_loop fuel text chunk_size overlap st in
  if loop_cond text st' then None else Some (st_chunks st').

(** [create_document_chunks(text, chunk_size, overlap)]. Nothing in the
    body raises on integers and strings, so the [except] branch is not
    taken. *)
Definition create_document_chunks (fuel : nat) (text : str)
           (chunk_size overlap : Z) : option (list str) :=
  if negb (truthy text) then Some []
  else chunk_loop fuel text chunk_size overlap initial.

(** The loop invariant behind the size bound. *)
Definition sized (cs : Z) (st : loop_state) : Prop :=
  0 <= st_start st /\ Forall (fun c => len c <= cs) (st_chunks st).

(** The loop invariant behind the stripped, non-empty chunks. *)
Definition clean (c : str) : Prop := c <> [] /\ strip c = c.

(** The text of the counterexample to termination. *)
Definition stuck_text : str := of_string "ab cdefgh".

End Chunker.

(** ** Search results and sorting *)

Module Search.
Import Py.

(** Identifiers ([uuid.UUID]) are 128-bit numbers. *)
Definition UUID := N.
Bind Scope N_scope with UUID.

(** [schemas.search.SearchResult], without its free-form [metadata]. *)
Record SearchResult : Type := mkSearchResult {
  chunk_id : UUID;
  document_id : UUID;
  document_name : str;
  domain_id : UUID;
  domain_name : str;
  content : str;
  chunk_index : Z;
  similarity_score : float
}.

(** [result.copy()] followed by [copy.content = c]. *)
Definition with_content (r : SearchResult) (c : str) : SearchResult :=
  mkSearchResult (chunk_id r) (document_id r) (document_name r) (domain_id r)
                 (domain_name r) c (chunk_index r) (similarity_score r).

(** Insertion of [x] into a list sorted by descending key, before the first
    element whose key is not above that of [x]: among equal keys the element
    met first stays first. *)
Fixpoint insert_desc {A : Type} (key : A -> float) (x : A) (l : list A)
  : list A :=
  match l with
  | [] => [x]
  | y :: r => if PrimFloat.ltb (key x) (key y)
              then y :: insert_desc key x r
              else x :: l
  end.

(** [sorted(l, key=key, reverse=True)]: a stable sort by descending key (for
    keys that are numbers; a NaN key is outside this model). *)
Definition sorted_desc {A : Type} (key : A -> float) (l : list A) : list A :=
  fold_right (insert_desc key) [] l.

(** [sum(len(r.content) for r in results)] *)
Definition total_content_length (results : list SearchResult) : Z :=
  fold_right (fun r acc => len (content r) + acc) 0 results.

End Search.

(** ** Context optimizer: [RAGService.optimize_context] *)

Module Rag.
Import Py Search.

(** The [for] loop over the sorted context, with the running [total_length]
    and the list collected so far; [break] ends the loop. *)
Fixpoint optimize_loop (max_context_length : Z) (sorted_context : list SearchResult)
         (total_length : Z) (optimized_context : list SearchResult)
  : list SearchResult :=
  match sorted_context with
  | [] => optimized_context
  | result :: rest =>
      let content_length := len (content result) in
      if total_length + content_length <=? max_context_length then
        optimize_loop max_context_length rest (total_length + content_length)
                      (optimized_context ++ [result])
      else
        let remaining_length := max_context_length - total_length in
        if remaining_length >? 100 then
          optimized_context ++
            [with_content result
               (slice_to (content result) remaining_length ++ of_string "...")]
        else optimized_context
  end.

(** [optimize_context(query, context, max_context_length)]; the body raises
    nothing on well-typed arguments, so the [except] branch is not taken. *)
Definition optimize_context (query : str) (context : list SearchResult)
           (max_context_length : Z) : list SearchResult :=
  if negb (truthy context) then []
  else optimize_loop max_context_length
                     (sorted_desc similarity_score context) 0 [].

(** The result of the spec's scenario: 1500 characters at score 0.9. *)
Definition long_result : SearchResult :=
  mkSearchResult 1%N 2%N (of_string "doc") 3%N (of_string "dom")
                 (repeat 88%N 1500) 0 0.9%float.

End Rag.

(** ** Hybrid fusion: [SearchService._combine_search_results] *)

Module Fusion.
Import Py Search.
Local Open Scope float_scope.

(** The value stored per chunk id in [combined_dict]. *)
Record combined : Type := mkCombined {
  result : SearchResult;
  semantic_score : float;
  vector_score : float;
  combined_score : float
}.

(** A Python [dict] keyed by chunk id: its entries in insertion order. *)
Definition dict := list (UUID * combined).

Fixpoint dict_get (k : UUID) (d : dict) : option combined :=
  match d with
  | [] => None
  | (k', v) :: r => if N.eqb k' k then Some v else dict_get k r
  end.

(** [d[k] = v]: an existing key keeps its place, a new key goes last. *)
Fixpoint dict_set (k : UUID) (v : combined) (d : dict) : dict :=
  match d with
  | [] => [(k, v)]
  | (k', v') :: r => if N.eqb k' k then (k, v) :: r
                     else (k', v') :: dict_set k v r
  end.

Definition dict_values (d : dict) : list combined := List.map snd d.

(** Body of the first loop, over the semantic results. *)
Definition add_semantic (semantic_weight : float) (d : dict)
           (r : SearchResult) : dict :=
  dict_set (chunk_id r)
           (mkCombined r (similarity_score r * semantic_weight) 0
                       (similarity_score r * semantic_weight)) d.

(** Body of the second loop, over the vector results. *)
Definition add_vector (vector_weight : float) (d : dict)
           (r : SearchResult) : dict :=
  match dict_get (chunk_id r) d with
  | Some e =>
      dict_set (chunk_id r)
               (mkCombined (result e) (semantic_score e)
                           (similarity_score r * vector_weight)
                           (combined_score e + similarity_score r * vector_weight))
               d
  | None =>
      dict_set (chunk_id r)
               (mkCombined r 0 (similarity_score r * vector_weight)
                           (similarity_score r * vector_weight)) d
  end.

(** [combined_dict] after both loops. *)
Definition combined_dict (semantic_results vector_results : list SearchResult)
           (semantic_weight vector_weight : float) : dict :=
  fold_left (add_vector vector_weight) vector_results
            (fold_left (add_semantic semantic_weight) semantic_results []).

Definition _combine_search_results
           (semantic_results vector_results : list SearchResult)
           (semantic_weight vector_weight : float) (limit : Z)
  : list SearchResult :=
  let combined_dict :=
    combined_dict semantic_results vector_results semantic_weight vector_weight in
  let sorted_results := sorted_desc combined_score (dict_values combined_dict) in
  List.map result (slice_to sorted_results limit).

(** The fused score the dictionary holds for a chunk id, if any. *)
Definition fused_score (d : dict) (c : UUID) : option float :=
  option_map combined_score (dict_get c d).

(** The last result of a list with chunk id [c]. *)
Fixpoint last_with_id (c : UUID) (l : list SearchResult) : option SearchResult :=
  match l with
  | [] => None
  | r :: rest =>
      match last_with_id c rest with
      | Some x => Some x
      | None => if N.eqb (chunk_id r) c then Some r else None
      end
  end.

(** The first result of a list with chunk id [c]. *)
Definition first_with_id (c : UUID) (l : list SearchResult) : option SearchResult :=
  find (fun r => N.eqb (chunk_id r) c) l.

(** How many results of a list carry chunk id [c]. *)
Definition count_id (c : UUID) (l : list SearchResult) : nat :=
  List.length (filter (fun r => N.eqb (chunk_id r) c) l).

(** The entry the first loop writes for a semantic result. *)
Definition semantic_entry (w : float) (r : SearchResult) : combined :=
  mkCombined r (similarity_score r * w) 0 (similarity_score r * w).

(** The entry the second loop leaves for a vector result met once. *)
Definition vector_entry (w : float) (before : option combined)
           (r : SearchResult) : combined :=
  match before with
  | Some e => mkCombined (result e) (semantic_score e) (similarity_score r * w)
                         (combined_score e + similarity_score r * w)
  | None => mkCombined r 0 (similarity_score r * w) (similarity_score r * w)
  end.

(** Scenario: weights 0.7 and 0.3; chunk 1 is found by the semantic search
    with score 1.0, chunk 2 by the vector search with score 0.9. *)
Definition result_a : SearchResult :=
  mkSearchResult 1%N 9%N [] 9%N [] (of_string "A") 0%Z 1.0.

Definition result_b : SearchResult :=
  mkSearchResult 2%N 9%N [] 9%N [] (of_string "B") 1%Z 0.9.

(** Chunk 3 is found by both searches, with the scores 0.5 and 0.4. *)
Definition result_c_semantic : SearchResult :=
  mkSearchResult 3%N 9%N [] 9%N [] (of_string "C") 2%Z 0.5.

Definition result_c_vector : SearchResult :=
  mkSearchResult 3%N 9%N [] 9%N [] (of_string "C") 2%Z 0.4.

End Fusion.

(** ** Hybrid search: the service method and its HTTP endpoint *)

Module SearchApi.
Import Py Search Fusion.
Local Open Scope float_scope.

(** Exceptions as the endpoint tells them apart: FastAPI's [HTTPException]
    and every other [Exception]. *)
Inductive exn : Type :=
| HTTPException (status_code : Z) (detail : string)
| Exception (message : string).

Inductive outcome (A : Type) : Type :=
| Returned (a : A)
| Raised (e : exn).
Arguments Returned {A} a.
Arguments Raised {A} e.

(** [schemas.search.SearchResponse]. *)
Record SearchResponse : Type := mkSearchResponse {
  query : str;
  results : list SearchResult;
  total_results : Z;
  response_time : float;
  response_domain_id : option UUID;
  response_metadata : option (list (string * string))
}.

(** The constructor call [SearchResponse(...)] by keywords. The schema
    declares [domain_id: Optional[UUID]] and [metadata: Optional[dict]]
    without a default, so both must be given (possibly as [None]): here
    [None] for either argument says that the keyword is absent, and then the
    validation raises [ValidationError]. A keyword that names no field, like
    [search_type], is ignored. *)
Definition SearchResponse_init (query : str) (results : list SearchResult)
           (total_results : Z) (response_time : float)
           (domain_id : option (option UUID))
           (metadata : option (option (list (string * string))))
  : outcome SearchResponse :=
  match domain_id, metadata with
  | Some d, Some m =>
      Returned (mkSearchResponse query results total_results response_time d m)
  | _, _ => Raised (Exception "validation errors for SearchResponse")
  end.

(** The arguments of a hybrid search, as the endpoint receives them after
    FastAPI has parsed the query string. *)
Record hybrid_args : Type := mkHybridArgs {
  arg_query : str;
  arg_domain_id : option UUID;
  arg_limit : Z;
  arg_semantic_weight : float;
  arg_vector_weight : float
}.

(** A request handler either finishes, or calls
    [SearchService.hybrid_search] once and goes on with what the call
    returned or raised. *)
Inductive handler : Type :=
| Finish (o : outcome SearchResponse)
| CallHybridSearch (a : hybrid_args)
                   (k : outcome SearchResponse -> outcome SearchResponse).

(** The test [abs(semantic_weight + vector_weight - 1.0) > 0.01]. *)
Definition weights_off (semantic_weight vector_weight : float) : bool :=
  PrimFloat.ltb 0.01 (abs (semantic_weight + vector_weight - 1.0)).

(** The [except] clauses of the endpoint: an [HTTPException] passes through,
    any other exception becomes a 500. *)
Definition endpoint_except (o : outcome SearchResponse)
  : outcome SearchResponse :=
  match o with
  | Returned r => Returned r
  | Raised (HTTPException s d) => Raised (HTTPException s d)
  | Raised (Exception _) => Raised (HTTPException 500 "Search failed")
  end.

Definition bad_weights : exn :=
  HTTPException 400 "Semantic and vector weights must sum to 1.0".

(** The endpoint [POST /hybrid] ([endpoints/search.py], [hybrid_search]). *)
Definition hybrid_search (a : hybrid_args) : handler :=
  if weights_off (arg_semantic_weight a) (arg_vector_weight a)
  then Finish (endpoint_except (Raised bad_weights))
  else CallHybridSearch a endpoint_except.

Section Service.

(** The store behind the service (its session, tables and clock), and the
    two searches the hybrid search is built from, each returning its
    response or raising, and leaving the store as it made it. *)
Variable store : Type.
Variable clock : store -> float.
Variable semantic_search :
  str -> option UUID -> Z -> store -> outcome SearchResponse * store.
Variable vector_search :
  str -> option UUID -> Z -> store -> outcome SearchResponse * store.

(** [_log_search(query, results_count, response_time, search_type, domain_id,
    error)]; it swallows its own failures. *)
Variable _log_search :
  str -> Z -> float -> string -> option UUID -> option exn -> store -> store.

Definition log_failure (a : hybrid_args) (start_time : float) (e : exn)
           (db : store) : outcome SearchResponse * store :=
  (Raised e,
   _log_search (arg_query a) 0%Z (clock db - start_time) "hybrid"
               (arg_domain_id a) (Some e) db).

(** [SearchService.hybrid_search]: it runs both searches and fuses them; it
    does not look at the sum of the weights. After the fused results are
    logged it builds the response from [query], [results], [total_results],
    [response_time] and [search_type] only; the failure of that call is
    handled like any other, by a second log entry and the exception. *)
Definition service_hybrid_search (a : hybrid_args) (db : store)
  : outcome SearchResponse * store :=
  let start_time := clock db in
  match semantic_search (arg_query a) (arg_domain_id a) (arg_limit a) db with
  | (Raised e, db1) => log_failure a start_time e db1
  | (Returned semantic_results, db1) =>
      match vector_search (arg_query a) (arg_domain_id a) (arg_limit a) db1 with
      | (Raised e, db2) => log_failure a start_time e db2
      | (Returned vector_results, db2) =>
          let combined_results :=
            _combine_search_results (results semantic_results)
                                    (results vector_results)
                                    (arg_semantic_weight a)
                                    (arg_vector_weight a) (arg_limit a) in
          let response_time := clock db2 - start_time in
          let db3 := _log_search (arg_query a) (len combined_results)
                                 response_time "hybrid" (arg_domain_id a)
                                 None db2 in
          match SearchResponse_init (arg_query a) combined_results
                                    (len combined_results) response_time
                                    None None with
          | Returned response => (Returned response, db3)
          | Raised e => log_failure a start_time e db3
          end
      end
  end.

(** A handler run against the service. *)
Definition run (h : handler) (db : store) : outcome SearchResponse * store :=
  match h with
  | Finish o => (o, db)
  | CallHybridSearch a k =>
      let (o, db') := service_hybrid_search a db in (k o, db')
  end.

End Service.

End SearchApi.

(** ** UTF-8 and MD5, as [text.encode()] and [hashlib.md5] compute them *)

Module Hashing.
Import Py.

(** A byte is an integer in [0, 255]. *)
Definition byte := Z.

(** The UTF-8 encoding of one code point; a surrogate (U+D800 to U+DFFF)
    has none: [str.encode] raises [UnicodeEncodeError]. *)
Definition encode_char (c : char) : option (list byte) :=
  let z := Z.of_N c in
  if z <? 128 then Some [z]
  else if z <? 2048 then
    Some [Z.lor 192 (Z.shiftr z 6); Z.lor 128 (Z.land z 63)]
  else if (55296 <=? z) && (z <=? 57343) then None
  else if z <? 65536 then
    Some [Z.lor 224 (Z.shiftr z 12);
          Z.lor 128 (Z.land (Z.shiftr z 6) 63);
          Z.lor 128 (Z.land z 63)]
  else if z <? 1114112 then
    Some [Z.lor 240 (Z.shiftr z 18);
          Z.lor 128 (Z.land (Z.shiftr z 12) 63);
          Z.lor 128 (Z.land (Z.shiftr z 6) 63);
          Z.lor 128 (Z.land z 63)]
  else None.

(** [text.encode()]: [None] stands for the raised [UnicodeEncodeError]. *)
Fixpoint encode (text : str) : option (list byte) :=
  match text with
  | [] => Some []
  | c :: r =>
      match encode_char c, encode r with
      | Some b, Some bs => Some (b ++ bs)
      | _, _ => None
      end
  end.

Definition w32 (x : Z) : Z := x mod 4294967296.

Definition rotl (x c : Z) : Z :=
  w32 (Z.lor (Z.shiftl x c) (Z.shiftr x (32 - c))).

Definition not32 (x : Z) : Z := Z.lxor x 4294967295.

(** Per-round shift amounts. *)
Definition md5_shift (i : Z) : Z :=
  let col := Z.to_nat (i mod 4) in
  if i <? 16 then nth col [7; 12; 17; 22] 0
  else if i <? 32 then nth col [5; 9; 14; 20] 0
  else if i <? 48 then nth col [4; 11; 16; 23] 0
  else nth col [6; 10; 15; 21] 0.

(** The sine table: [floor(2^32 * abs(sin(i + 1)))]. *)
Definition md5_table : list Z :=
  [3614090360; 3905402710;  606105819; 3250441966;
   4118548399; 1200080426; 2821735955; 4249261313;
   1770035416; 2336552879; 4294925233; 2304563134;
   1804603682; 4254626195; 2792965006; 1236535329;
   4129170786; 3225465664;  643717713; 3921069994;
   3593408605;   38016083; 3634488961; 3889429448;
    568446438; 3275163606; 4107603335; 1163531501;
   2850285829; 4243563512; 1735328473; 2368359562;
   4294588738; 2272392833; 1839030562; 4259657740;
   2763975236; 1272893353; 4139469664; 3200236656;
    681279174; 3936430074; 3572445317;   76029189;
   3654602809; 3873151461;  530742520; 3299628645;
   4096336452; 1126891415; 2878612391; 4237533241;
   1700485571; 2399980690; 4293915773; 2240044497;
   1873313359; 4264355552; 2734768916; 1309151649;
   4149444226; 3174756917;  718787259; 3951481745].

(** Little-endian bytes of a number, [n] of them. *)
Fixpoint le_bytes (n : nat) (x : Z) : list byte :=
  match n with
  | O => []
  | S k => (x mod 256) :: le_bytes k (x / 256)
  end.

(** The number a little-endian byte sequence stands for. *)
Fixpoint le_word (bs : list byte) : Z :=
  match bs with
  | [] => 0
  | b :: r => b + 256 * le_word r
  end.

(** Padding: a one bit, zeros up to 56 modulo 64, and the bit length. *)
Definition md5_pad (msg : list byte) : list byte :=
  let n := len msg in
  msg ++ [128] ++ repeat 0 (Z.to_nat ((55 - n) mod 64))
      ++ le_bytes 8 ((8 * n) mod 18446744073709551616).

(** The sixteen words of a 64-byte block. *)
Fixpoint block_words (n : nat) (block : list byte) : list Z :=
  match n with
  | O => []
  | S k => le_word (firstn 4 block) :: block_words k (skipn 4 block)
  end.

Definition md5_state : Type := (Z * Z * Z * Z)%type.

Definition md5_round (m : list Z) (st : md5_state) (i : Z) : md5_state :=
  let '(a, b, c, d) := st in
  let f :=
    if i <? 16 then Z.lor (Z.land b c) (Z.land (not32 b) d)
    else if i <? 32 then Z.lor (Z.land d b) (Z.land (not32 d) c)
    else if i <? 48 then Z.lxor b (Z.lxor c d)
    else Z.lxor c (Z.lor b (not32 d)) in
  let g :=
    if i <? 16 then i
    else if i <? 32 then (5 * i + 1) mod 16
    else if i <? 48 then (3 * i + 5) mod 16
    else (7 * i) mod 16 in
  let f' := w32 (f + a + nth (Z.to_nat i) md5_table 0 + nth (Z.to_nat g) m 0) in
  (d, w32 (b + rotl f' (md5_shift i)), b, c).

Definition md5_block (st : md5_state) (block : list byte) : md5_state :=
  let m := block_words 16 block in
  let '(a0, b0, c0, d0) := st in
  let '(a, b, c, d) :=
    fold_left (md5_round m) (List.map Z.of_nat (seq 0 64)) st in
  (w32 (a0 + a), w32 (b0 + b), w32 (c0 + c), w32 (d0 + d)).

(** The blocks of a padded message. *)
Fixpoint md5_blocks (n : nat) (st : md5_state) (msg : list byte) : md5_state :=
  match n with
  | O => st
  | S k => md5_blocks k (md5_block st (firstn 64 msg)) (skipn 64 msg)
  end.

Definition md5_digest (msg : list byte) : list byte :=
  let padded := md5_pad msg in
  let '(a, b, c, d) :=
    md5_blocks (List.length padded / 64)
               (1732584193, 4023233417, 2562383102, 271733878) padded in
  le_bytes 4 a ++ le_bytes 4 b ++ le_bytes 4 c ++ le_bytes 4 d.

Definition hex_digit (n : Z) : char :=
  Z.to_N (if n <? 10 then 48 + n else 87 + n).

(** [hashlib.md5(msg).hexdigest()] *)
Definition md5_hexdigest (msg : list byte) : str :=
  flat_map (fun b => [hex_digit (b / 16); hex_digit (b mod 16)])
           (md5_digest msg).

End Hashing.

(** ** The placeholder embedding: [create_embedding] *)

Module Embedding.
Import Py Hashing.

(** What the module's logger has been told so far. *)
Inductive log_level : Type := INFO | ERROR.
Definition logger := list (log_level * string).

(** [float(z)] for an integer of small magnitude. *)
Definition float_of_Z (z : Z) : float :=
  if z <? 0 then PrimFloat.opp (PrimFloat.of_uint63 (Uint63.of_Z (- z)))
  else PrimFloat.of_uint63 (Uint63.of_Z z).

(** [l[i] = x] for [i >= 0]; [None] stands for the raised [IndexError]. *)
Fixpoint list_set {A : Type} (i : nat) (x : A) (l : list A)
  : option (list A) :=
  match l, i with
  | [], _ => None
  | _ :: r, O => Some (x :: r)
  | y :: r, S k => option_map (cons y) (list_set k x r)
  end.

(** The loop [for i, char in enumerate(chars): placeholder[i] = ...],
    entered at index [i]. *)
Fixpoint fill (i : nat) (chars : str) (placeholder : list float)
  : option (list float) :=
  match chars with
  | [] => Some placeholder
  | char :: rest =>
      match list_set i (PrimFloat.div (float_of_Z (Z.of_N char - 97)) 26)
                     placeholder with
      | Some p => fill (S i) rest p
      | None => None
      end
  end.

(** How the [try] block ends. *)
Inductive ending : Type :=
| ReturnNone
| ReturnEmbedding (e : list float)
| RaisedError.

Definition embedding_body (embedding_dimension : Z) (text : str) : ending :=
  if negb (truthy text) then ReturnNone
  else
    let placeholder_embedding :=
      repeat PrimFloat.zero (Z.to_nat embedding_dimension) in
    match encode text with
    | None => RaisedError
    | Some bytes =>
        let text_hash := md5_hexdigest bytes in
        match fill 0 (slice_to text_hash
                               (Z.min (len text_hash) embedding_dimension))
                   placeholder_embedding with
        | Some e => ReturnEmbedding e
        | None => RaisedError
        end
    end.

(** [create_embedding(text)] with [settings.VECTOR_DIMENSION] and the
    logger as it stood; the [except] branch logs an error and returns
    [None]. *)
Definition create_embedding (VECTOR_DIMENSION : Z) (text : str)
           (log : logger) : option (list float) * logger :=
  match embedding_body VECTOR_DIMENSION text with
  | ReturnNone => (None, log)
  | ReturnEmbedding e =>
      (Some e, log ++ [(INFO, "Generated placeholder embedding"%string)])
  | RaisedError => (None, log ++ [(ERROR, "Error creating embedding"%string)])
  end.

(** [validate_vector_dimension] of [core/config.py]. *)
Definition validate_vector_dimension (v : Z) : option Z :=
  if existsb (Z.eqb v) [384; 768; 1024; 1536; 2048; 4096] then Some v
  else None.

End Embedding.

(** ** The document store and [DocumentService] *)

Module Store.
Import Py Search.

(** A row of [documents] ([models/document.py]). The model declares no
    [chunk_size] attribute. *)
Record Document : Type := mkDocument {
  doc_id : UUID;
  doc_domain_id : UUID;
  filename : str;
  file_path : str;
  file_size : Z;
  file_type : str;
  status : string
}.

(** A row of [document_chunks]. The JSON column is [document_metadata],
    nullable and without a default; the class has no column named
    [metadata]. *)
Record DocumentChunk : Type := mkDocumentChunk {
  dc_id : UUID;
  dc_document_id : UUID;
  dc_chunk_index : Z;
  dc_content : str;
  dc_embedding : option (list float);
  dc_document_metadata : option (list (string * Z))
}.

(** The two tables, and the next identifier a new row receives (the store
    hands out fresh ones). No uniqueness constraint ties [dc_document_id] and
    [dc_chunk_index]: the schema only indexes them. *)
Record database : Type := mkDatabase {
  documents : list Document;
  chunks : list DocumentChunk;
  next_id : UUID
}.

Definition set_status (s : string) (d : Document) : Document :=
  mkDocument (doc_id d) (doc_domain_id d) (filename d) (file_path d)
             (file_size d) (file_type d) s.

(** [DocumentService.get_document] *)
Definition get_document (document_id : UUID) (db : database)
  : option Document :=
  find (fun d => N.eqb (doc_id d) document_id) (documents db).

(** [DocumentService.update_document_status]: the row with this primary key
    gets the new status; nothing happens when there is none. *)
Definition update_document_status (document_id : UUID) (s : string)
           (db : database) : database :=
  mkDatabase
    (List.map (fun d => if N.eqb (doc_id d) document_id then set_status s d
                        else d)
              (documents db))
    (chunks db) (next_id db).

(** The chunk rows of a document, in table order. *)
Definition chunks_of (document_id : UUID) (db : database)
  : list DocumentChunk :=
  filter (fun c => N.eqb (dc_document_id c) document_id) (chunks db).

(** [ORDER BY chunk_index]: insertion into a list in ascending index order,
    after the rows whose index is not above. *)
Fixpoint insert_by_index (c : DocumentChunk) (l : list DocumentChunk)
  : list DocumentChunk :=
  match l with
  | [] => [c]
  | y :: r => if dc_chunk_index c <? dc_chunk_index y then c :: l
              else y :: insert_by_index c r
  end.

(** [DocumentService.get_document_chunks] *)
Definition get_document_chunks (document_id : UUID) (db : database)
  : list DocumentChunk :=
  fold_right insert_by_index [] (chunks_of document_id db).

(** [DocumentService.create_document_chunk]. It builds the row with
    [DocumentChunk(document_id=..., chunk_index=..., content=...,
    metadata=metadata or {})]. The keyword [metadata] names no column: the
    value is set on the Python object only, and the row is written with
    [document_metadata] and [embedding] left [NULL]. *)
Definition create_document_chunk (document_id : UUID) (chunk_index : Z)
           (content : str) (metadata : list (string * Z)) (db : database)
  : database :=
  mkDatabase
    (documents db)
    (chunks db ++ [mkDocumentChunk (next_id db) document_id chunk_index
                                   content None None])
    (N.succ (next_id db)).

End Store.

(** ** Ingestion tasks: [tasks/document_processing.py] *)

Module Ingestion.
Import Py Search Store Chunker.

(** A file as the extractor meets it: text that decodes as UTF-8, or bytes
    that do not (reading raises). *)
Inductive file : Type :=
| Text (t : str)
| Undecodable.

(** The file system: what is stored at a path, if anything. *)
Definition filesystem := str -> option file.

Record settings : Type := mkSettings {
  CHUNK_SIZE : Z;
  CHUNK_OVERLAP : Z
}.

(** [str.lower] on the letters A to Z. *)
Definition lower (s : str) : str :=
  List.map (fun c => if ((65 <=? c) && (c <=? 90))%N then (c + 32)%N else c) s.

Fixpoint str_eqb (a b : str) : bool :=
  match a, b with
  | [], [] => true
  | x :: a', y :: b' => N.eqb x y && str_eqb a' b'
  | _, _ => false
  end.

(** [extract_text_from_txt]: a failed read is logged and gives [""]. *)
Definition extract_text_from_txt (fs : filesystem) (path : str) : str :=
  match fs path with
  | Some (Text t) => t
  | _ => []
  end.

(** [extract_text_from_pdf]: a placeholder, the file is not read. *)
Definition extract_text_from_pdf (path : str) : str :=
  of_string "PDF content placeholder for " ++ path.

(** [extract_text_from_docx]: a placeholder, the file is not read. *)
Definition extract_text_from_docx (path : str) : str :=
  of_string "DOCX content placeholder for " ++ path.

(** [extract_text_from_document]: [None] for a missing file or an
    unsupported type. *)
Definition extract_text_from_document (fs : filesystem) (document : Document)
  : option str :=
  let path := file_path document in
  match fs path with
  | None => None
  | Some _ =>
      let ftype := lower (file_type document) in
      if str_eqb ftype (of_string "txt")
      then Some (extract_text_from_txt fs path)
      else if str_eqb ftype (of_string "pdf")
      then Some (extract_text_from_pdf path)
      else if str_eqb ftype (of_string "docx") || str_eqb ftype (of_string "doc")
      then Some (extract_text_from_docx path)
      else None
  end.

(** [not text_content] for an optional string. *)
Definition no_text (t : option str) : bool :=
  match t with
  | Some (_ :: _) => false
  | _ => true
  end.

(** How a task ends: it returns, or its exception propagates. *)
Inductive task_end : Type :=
| Done
| Failed (e : string).

(** [x or default] for an optional integer. *)
Definition or_default (x : option Z) (default : Z) : Z :=
  match x with
  | Some v => if v =? 0 then default else v
  | None => default
  end.

(** The attribute lookup [document.chunk_size]: the class [Document]
    declares no attribute of that name, so it raises [AttributeError]. *)
Definition document_chunk_size (document : Document) : string + option Z :=
  inl "'Document' object has no attribute 'chunk_size'"%string.

(** The loop [for i, chunk_text in enumerate(chunks)] that saves the chunks,
    entered at index [i]. *)
Fixpoint save_chunks (document_id : UUID) (i : Z) (chunk_texts : list str)
         (extra : list (string * Z)) (db : database) : database :=
  match chunk_texts with
  | [] => db
  | chunk_text :: rest =>
      save_chunks document_id (i + 1) rest extra
                  (create_document_chunk document_id i chunk_text
                     (("chunk_size"%string, len chunk_text) :: extra) db)
  end.

(** [process_document(document_id)]; [None] when the chunker does not end
    within [fuel] iterations. *)
Definition process_document (fuel : nat) (fs : filesystem) (st : settings)
           (document_id : UUID) (db : database)
  : option (task_end * database) :=
  match get_document document_id db with
  | None => Some (Done, db)
  | Some document =>
      let db := update_document_status document_id "processing" db in
      let text_content := extract_text_from_document fs document in
      match text_content with
      | Some (c :: r) =>
          match document_chunk_size document with
          | inl e =>
              Some (Failed e, update_document_status document_id "failed" db)
          | inr chunk_size =>
              match create_document_chunks
                      fuel (c :: r) (or_default chunk_size (CHUNK_SIZE st)) 0
              with
              | None => None
              | Some chunk_texts =>
                  let db := save_chunks document_id 0 chunk_texts [] db in
                  Some (Done,
                        update_document_status document_id "completed" db)
              end
          end
      | _ => Some (Done, update_document_status document_id "failed" db)
      end
  end.

(** [chunk_document(document_id, chunk_size, overlap)]; [None] when the
    chunker does not end within [fuel] iterations. *)
Definition chunk_document (fuel : nat) (fs : filesystem) (st : settings)
           (document_id : UUID) (chunk_size overlap : option Z)
           (db : database) : option (task_end * database) :=
  let chunk_size := or_default chunk_size (CHUNK_SIZE st) in
  let overlap := or_default overlap (CHUNK_OVERLAP st) in
  match get_document document_id db with
  | None => Some (Done, db)
  | Some document =>
      let existing_chunks := get_document_chunks document_id db in
      if truthy existing_chunks then Some (Done, db)
      else
        match extract_text_from_document fs document with
        | Some (c :: r) =>
            match create_document_chunks fuel (c :: r) chunk_size overlap with
            | None => None
            | Some chunk_texts =>
                Some (Done,
                      save_chunks document_id 0 chunk_texts
                                  [("overlap"%string, overlap)] db)
            end
        | _ => Some (Done, db)
        end
  end.

(** The two ways a document is ingested. *)
Inductive ingestion : Type :=
| ProcessDocument
| ChunkDocument (chunk_size overlap : option Z).

Definition attempt (i : ingestion) (fuel : nat) (fs : filesystem)
           (st : settings) (document_id : UUID) (db : database)
  : option (task_end * database) :=
  match i with
  | ProcessDocument => process_document fuel fs st document_id db
  | ChunkDocument chunk_size overlap =>
      chunk_document fuel fs st document_id chunk_size overlap db
  end.

(** The chunk indices stored for a document. *)
Definition indices_of (document_id : UUID) (db : database) : list Z :=
  List.map dc_chunk_index (chunks_of document_id db).

(** A store with one pending document and one chunk of another document. *)
Definition sample_db (ftype : string) : database :=
  mkDatabase
    [mkDocument 1 9 (of_string "report") (of_string "/uploads/report") 120
                (of_string ftype) "pending"]
    [mkDocumentChunk 50 2 0 (of_string "other") None None] 51.

(** A file system holding bytes that do not decode at the document's path. *)
Definition corrupt_fs : filesystem :=
  fun path => if str_eqb path (of_string "/uploads/report")
              then Some Undecodable else None.

(** A text file of two words, chunked with [chunk_size = 6]. *)
Definition words_fs : filesystem :=
  fun path => if str_eqb path (of_string "/uploads/report")
              then Some (Text (of_string "hello world")) else None.

(** The indices [i, i + 1, ...], [n] of them. *)
Fixpoint count_from (i : Z) (n : nat) : list Z :=
  match n with
  | O => []
  | S k => i :: count_from (i + 1) k
  end.

End Ingestion.

(** ** Views of strings used to state what the chunker keeps *)

Module Text.
Import Py.

(** The characters of [s] that are not whitespace, in order. *)
Definition squeeze (s : str) : str := filter (fun c => negb (isspace c)) s.

(** [c] occurs in [s] as a run of consecutive characters ([c in s]). *)
Definition infix (c s : str) : Prop := exists pre post, s = pre ++ c ++ post.

End Text.

(** ** Well-formed fusion dictionaries *)

Module FusionShape.
Import Py Search Fusion.

(** A dictionary built from the two result lists: every key occurs once and
    is the chunk id of its entry's result, which is one of the results
    given. *)
Definition well_formed (sem vec : list SearchResult) (d : dict) : Prop :=
  NoDup (List.map fst d) /\
  Forall (fun p => chunk_id (result (snd p)) = fst p /\
                   (In (result (snd p)) sem \/ In (result (snd p)) vec)) d.

End FusionShape.

(** ** More of [DocumentService], and the embedding tasks *)

Module Maintenance.
Import Py Search Store Chunker Ingestion Hashing Embedding.

(** Rows in ascending index order. *)
Definition by_index (a b : DocumentChunk) : Prop :=
  dc_chunk_index a <= dc_chunk_index b.

(** The rows the saving loop appends for the chunks [texts], the first with
    index [i] and identifier [next]. *)
Fixpoint new_rows (document_id : UUID) (i : Z) (texts : list str)
         (next : UUID) : list DocumentChunk :=
  match texts with
  | [] => []
  | t :: rest =>
      mkDocumentChunk next document_id i t None None
      :: new_rows document_id (i + 1) rest (N.succ next)
  end.

(** [os.remove(path)] *)
Definition remove_file (path : str) (fs : filesystem) : filesystem :=
  fun p => if str_eqb p path then None else fs p.

(** [DocumentService.delete_document]: [False] when there is no such
    document; otherwise the file is removed if it exists, the row is
    deleted, and the relationship's cascade deletes the document's chunks. *)
Definition delete_document (document_id : UUID) (fs : filesystem)
           (db : database) : bool * filesystem * database :=
  match get_document document_id db with
  | None => (false, fs, db)
  | Some document =>
      let fs' := match fs (file_path document) with
                 | Some _ => remove_file (file_path document) fs
                 | None => fs
                 end in
      (true, fs',
       mkDatabase
         (filter (fun d => negb (N.eqb (doc_id d) document_id)) (documents db))
         (filter (fun c => negb (N.eqb (dc_document_id c) document_id))
                 (chunks db))
         (next_id db))
  end.

(** [DocumentService.document_exists] *)
Definition document_exists (document_id : UUID) (db : database) : bool :=
  match get_document document_id db with
  | Some _ => true
  | None => false
  end.

Definition set_embedding (e : list float) (c : DocumentChunk) : DocumentChunk :=
  mkDocumentChunk (dc_id c) (dc_document_id c) (dc_chunk_index c)
                  (dc_content c) (Some e) (dc_document_metadata c).

(** The chunk row with a given primary key. *)
Definition get_chunk (chunk_id : UUID) (db : database) : option DocumentChunk :=
  find (fun c => N.eqb (dc_id c) chunk_id) (chunks db).

Section VectorColumn.

(** What the database keeps of one component of a vector: it stores single
    precision, so what is read back need not be the float that was written,
    and it may refuse a component. *)
Variable store_component : float -> option float.

Fixpoint store_components (v : list float) : option (list float) :=
  match v with
  | [] => Some []
  | x :: r =>
      match store_component x, store_components r with
      | Some y, Some r' => Some (y :: r')
      | _, _ => None
      end
  end.

(** The column [embedding = Column(Vector(1536))] when a row is written: a
    list of another length is refused. *)
Definition vector_column (v : list float) : option (list float) :=
  if len v =? 1536 then store_components v else None.

(** [DocumentService.update_chunk_embedding]: [None] when there is no such
    chunk. When the column refuses the value the commit fails; the method
    rolls back and re-raises ([inl]). Otherwise the chunk is refreshed from
    the row and returned. *)
Definition update_chunk_embedding (chunk_id : UUID) (embedding : list float)
           (db : database) : (string + option DocumentChunk) * database :=
  match get_chunk chunk_id db with
  | None => (inr None, db)
  | Some chunk =>
      match vector_column embedding with
      | None => (inl "embedding refused by column Vector(1536)"%string, db)
      | Some stored =>
          (inr (Some (set_embedding stored chunk)),
           mkDatabase
             (documents db)
             (List.map (fun c => if N.eqb (dc_id c) chunk_id
                                 then set_embedding stored c else c)
                       (chunks db))
             (next_id db))
      end
  end.

End VectorColumn.

(** [validate_embedding(embedding)] on a list of floats. *)
Definition validate_embedding (VECTOR_DIMENSION : Z) (embedding : list float)
  : bool :=
  if negb (truthy embedding) then false
  else if negb (len embedding =? VECTOR_DIMENSION) then false
  else true.

(** The component written for one character of the digest:
    [(ord(char) - ord('a')) / 26.0]. *)
Definition hash_value (char : Py.char) : float :=
  PrimFloat.div (float_of_Z (Z.of_N char - 97)) 26.

(** [create_embeddings_batch(texts)], the logger threaded through. *)
Fixpoint create_embeddings_batch (VECTOR_DIMENSION : Z) (texts : list str)
         (log : logger) : list (option (list float)) * logger :=
  match texts with
  | [] => ([], log)
  | text :: rest =>
      let (embedding, log1) := create_embedding VECTOR_DIMENSION text log in
      let (embeddings, log2) :=
        create_embeddings_batch VECTOR_DIMENSION rest log1 in
      (embedding :: embeddings, log2)
  end.



(** [validate_chunk_size] and [validate_chunk_overlap] of [core/config.py];
    [None] stands for the raised [ValueError]. *)
Definition validate_chunk_size (v : Z) : option Z :=
  if (v <? 100) || (v >? 10000) then None else Some v.

Definition validate_chunk_overlap (v chunk_size : Z) : option Z :=
  if v >=? chunk_size then None else Some v.

End Maintenance.

(** ** Upload validation: [schemas/document.py] *)

Module Upload.
Import Py Ingestion.

(** The file types [DocumentBase.validate_file_type] lets through. *)
Definition allowed_types : list str :=
  List.map of_string ["pdf"; "docx"; "txt"; "md"; "rtf"]%string.

(** [validate_file_type]: the lower-cased type, or [None] for the raised
    [ValueError]. *)
Definition validate_file_type (v : str) : option str :=
  if existsb (str_eqb (lower v)) allowed_types then Some (lower v) else None.

(** A text on which the chunker stalls with the default sizes: 1000 letters,
    a space, 2000 letters. *)
Definition stall_text : str :=
  repeat 97%N 1000 ++ [space] ++ repeat 98%N 2000.

End Upload.

(** * Verification *)

(** ** Facts about Python strings *)

Module PyFacts.
Import Py.

Lemma len_nonneg {A : Type} (s : list A) : 0 <= len s.
Proof. unfold len. lia. Qed.

Lemma adjust_range (n i : Z) : 0 <= n -> 0 <= adjust n i <= n.
Proof. unfold adjust. destruct (i <? 0) eqn:E; lia. Qed.

Lemma adjust_nonneg_arg (n i : Z) : 0 <= i -> adjust n i = Z.min i n.
Proof.
  intros H. unfold adjust. destruct (i <? 0) eqn:E; [lia | reflexivity].
Qed.

Lemma length_slice_le {A : Type} (s : list A) (i j : Z) :
  len (slice s i j) <= Z.max 0 (adjust (len s) j - adjust (len s) i).
Proof.
  unfold slice, len. rewrite length_firstn. lia.
Qed.

Lemma slice_all {A : Type} (s : list A) (j : Z) :
  len s <= j -> slice s 0 j = s.
Proof.
  intros H. unfold slice. pose proof (len_nonneg s) as Hn.
  rewrite (adjust_nonneg_arg _ 0) by lia.
  rewrite (adjust_nonneg_arg _ j) by lia.
  rewrite (Z.min_l 0) by lia. rewrite (Z.min_r j) by lia.
  cbn [Z.to_nat skipn]. rewrite Z.sub_0_r. unfold len.
  rewrite Nat2Z.id. apply firstn_all.
Qed.

Lemma len_app {A : Type} (l1 l2 : list A) : len (l1 ++ l2) = len l1 + len l2.
Proof. unfold len. rewrite length_app. lia. Qed.

Lemma len_slice_to {A : Type} (s : list A) (j : Z) :
  0 <= j -> len (slice_to s j) <= j.
Proof.
  intros Hj. unfold slice_to. pose proof (length_slice_le s 0 j) as H.
  pose proof (len_nonneg s). rewrite !adjust_nonneg_arg in H by lia. lia.
Qed.

Lemma lstrip_suffix (s : str) : exists p, s = p ++ lstrip s.
Proof.
  induction s as [|c r [p Hp]]; [exists []; reflexivity|].
  cbn. destruct (isspace c).
  - exists (c :: p). cbn. now rewrite <- Hp.
  - exists []. reflexivity.
Qed.

Lemma rstrip_prefix (s : str) : exists q, s = rstrip s ++ q.
Proof.
  unfold rstrip. destruct (lstrip_suffix (rev s)) as [p Hp].
  exists (rev p). rewrite <- rev_app_distr, <- Hp. now rewrite rev_involutive.
Qed.

Lemma lstrip_lstripped (s : str) : lstripped (lstrip s).
Proof.
  induction s as [|c r IH]; cbn; [exact I|].
  destruct (isspace c) eqn:E; [exact IH | cbn; exact E].
Qed.

Lemma lstripped_fixed (s : str) : lstripped s -> lstrip s = s.
Proof. destruct s as [|c r]; cbn; [reflexivity|]. now intros ->. Qed.

Lemma rstrip_fixed (s : str) : rstrip (rstrip s) = rstrip s.
Proof.
  unfold rstrip. rewrite rev_involutive.
  now rewrite (lstripped_fixed _ (lstrip_lstripped (rev s))).
Qed.

Lemma rstrip_keeps_lstripped (s : str) : lstripped s -> lstripped (rstrip s).
Proof.
  intros H. destruct (rstrip_prefix s) as [q Hq].
  destruct (rstrip s) as [|c r]; [exact I|].
  rewrite Hq in H. exact H.
Qed.

Lemma strip_idempotent (s : str) : strip (strip s) = strip s.
Proof.
  unfold strip.
  rewrite (lstripped_fixed (rstrip (lstrip s))).
  - apply rstrip_fixed.
  - apply rstrip_keeps_lstripped, lstrip_lstripped.
Qed.

Lemma length_lstrip (s : str) : (List.length (lstrip s) <= List.length s)%nat.
Proof.
  induction s as [|c r IH]; cbn; [lia|]. destruct (isspace c); cbn; lia.
Qed.

Lemma length_strip (s : str) : (List.length (strip s) <= List.length s)%nat.
Proof.
  unfold strip, rstrip. rewrite length_rev.
  pose proof (length_lstrip (rev (lstrip s))) as H1.
  rewrite length_rev in H1. pose proof (length_lstrip s). lia.
Qed.

Lemma len_strip (s : str) : len (strip s) <= len s.
Proof. unfold len. pose proof (length_strip s). lia. Qed.

Lemma lstrip_has_text (s : str) : has_text s = true -> has_text (lstrip s) = true.
Proof.
  induction s as [|c r IH]; cbn; [easy|].
  destruct (isspace c) eqn:E; cbn; [exact IH|]. now rewrite E.
Qed.

Lemma has_text_rev (s : str) : has_text (rev s) = has_text s.
Proof.
  unfold has_text. induction s as [|c r IH]; [reflexivity|].
  cbn. rewrite existsb_app, IH. cbn. rewrite orb_false_r. apply orb_comm.
Qed.

Lemma strip_has_text (s : str) : has_text s = true -> has_text (strip s) = true.
Proof.
  intros H. unfold strip, rstrip. rewrite has_text_rev.
  apply lstrip_has_text. rewrite has_text_rev. now apply lstrip_has_text.
Qed.

Lemma has_text_truthy (s : str) : has_text s = true -> truthy s = true.
Proof. destruct s; [discriminate | reflexivity]. Qed.

Lemma last_index_range (c : char) (s : str) (i acc : Z) :
  last_index c s i acc = acc \/ i <= last_index c s i acc < i + len s.
Proof.
  revert i acc. induction s as [|x r IH]; intros i acc; [now left|].
  cbn [last_index]. unfold len in *. cbn [List.length].
  destruct (N.eqb x c).
  - right. destruct (IH (i + 1) i) as [-> | H]; lia.
  - destruct (IH (i + 1) acc) as [-> | H]; [now left | right; lia].
Qed.

(** [rfind] answers [-1] or an index inside the adjusted window. *)
Lemma rfind_range (s : str) (c : char) (i j : Z) :
  rfind s c i j = -1 \/
  adjust (len s) i <= rfind s c i j < adjust (len s) j.
Proof.
  unfold rfind.
  destruct (last_index_range c (slice s i j) (adjust (len s) i) (-1))
    as [H | H]; [now left | right].
  pose proof (length_slice_le s i j). lia.
Qed.

End PyFacts.

(** ** The chunker *)

Module ChunkerFacts.
Import Py PyFacts Chunker.

Lemma run_loop_done (n : nat) (text : str) (cs ov : Z) (st : loop_state) :
  loop_cond text st = false -> run_loop n text cs ov st = st.
Proof. intros H. destruct n; cbn; [reflexivity | now rewrite H]. Qed.

(** Whatever one iteration preserves holds after any number of them. *)
Lemma run_loop_invariant (P : loop_state -> Prop) (text : str) (cs ov : Z) :
  (forall st, P st -> P (chunk_step text cs ov st)) ->
  forall n st, P st -> P (run_loop n text cs ov st).
Proof.
  intros Hstep n. induction n as [|k IH]; intros st Hst; cbn; [exact Hst|].
  destruct (loop_cond text st); [apply IH, Hstep, Hst | exact Hst].
Qed.

(** The window is never empty and never wider than [chunk_size]. *)
Lemma window_end_bounds (text : str) (cs start : Z) :
  0 < cs -> 0 <= start ->
  start < window_end text cs start <= start + cs.
Proof.
  intros Hcs Hstart. unfold window_end.
  destruct (start + cs <? len text) eqn:E; [|lia].
  destruct (Z.max _ _ >? start) eqn:B; [|lia].
  pose proof (len_nonneg text) as Hn.
  pose proof (rfind_range text space start (start + cs)) as Hs.
  pose proof (rfind_range text newline start (start + cs)) as Hl.
  rewrite (adjust_nonneg_arg _ (start + cs)) in Hs, Hl by lia.
  lia.
Qed.

(** A window cut at a word boundary still spans two characters or more. *)
Lemma window_end_step (text : str) (cs start : Z) :
  window_end text cs start = start + cs \/ start + 2 <= window_end text cs start.
Proof.
  unfold window_end. destruct (start + cs <? len text); [|now left].
  destruct (Z.max _ _ >? start) eqn:B; [right; lia | now left].
Qed.

Lemma chunk_step_start_pos (text : str) (cs ov : Z) (st : loop_state) :
  0 < cs -> 0 <= st_start st -> 0 < st_start (chunk_step text cs ov st).
Proof.
  intros Hcs Hst. pose proof (window_end_bounds text cs _ Hcs Hst).
  unfold chunk_step. cbn [st_start].
  destruct (_ <=? 0) eqn:E; lia.
Qed.

Lemma chunk_step_chunks (text : str) (cs ov : Z) (st : loop_state) :
  let chunk := strip (slice text (st_start st)
                            (window_end text cs (st_start st))) in
  st_chunks (chunk_step text cs ov st) =
    if truthy chunk then st_chunks st ++ [chunk] else st_chunks st.
Proof. reflexivity. Qed.

Lemma window_chunk_len (text : str) (cs start : Z) :
  0 < cs -> 0 <= start ->
  len (strip (slice text start (window_end text cs start))) <= cs.
Proof.
  intros Hcs Hstart.
  pose proof (window_end_bounds text cs start Hcs Hstart) as Hw.
  pose proof (len_strip (slice text start (window_end text cs start))).
  pose proof (length_slice_le text start (window_end text cs start)) as Hl.
  rewrite !adjust_nonneg_arg in Hl by lia. lia.
Qed.

Lemma chunk_step_sized (text : str) (cs ov : Z) (st : loop_state) :
  0 < cs -> sized cs st -> sized cs (chunk_step text cs ov st).
Proof.
  intros Hcs [Hs Hc]. split.
  - pose proof (chunk_step_start_pos text cs ov st Hcs Hs). lia.
  - rewrite chunk_step_chunks. cbv zeta.
    destruct (truthy _); [|exact Hc].
    apply Forall_app. split; [exact Hc|].
    constructor; [|constructor]. now apply window_chunk_len.
Qed.

Lemma chunk_step_clean (text : str) (cs ov : Z) (st : loop_state) :
  Forall clean (st_chunks st) ->
  Forall clean (st_chunks (chunk_step text cs ov st)).
Proof.
  intros Hc. rewrite chunk_step_chunks. cbv zeta.
  destruct (truthy _) eqn:T; [|exact Hc].
  apply Forall_app. split; [exact Hc|].
  constructor; [|constructor]. split.
  - intros E. rewrite E in T. discriminate.
  - apply strip_idempotent.
Qed.

Lemma create_document_chunks_result (fuel : nat) (text : str) (cs ov : Z)
      (l : list str) :
  create_document_chunks fuel text cs ov = Some l ->
  l = [] \/ l = st_chunks (run_loop fuel text cs ov initial).
Proof.
  unfold create_document_chunks, chunk_loop.
  destruct (negb (truthy text)); [intros [= <-]; now left|].
  destruct (loop_cond _ _); [discriminate|]. intros [= <-]. now right.
Qed.

(** With an overlap of at most one character every iteration moves [start]
    forward. *)
Lemma chunk_step_progress (text : str) (cs ov : Z) (st : loop_state) :
  0 < cs -> ov < cs -> ov <= 1 -> 0 <= st_start st ->
  st_start st < st_start (chunk_step text cs ov st).
Proof.
  intros Hcs Hov H1 Hst.
  pose proof (window_end_bounds text cs _ Hcs Hst).
  pose proof (window_end_step text cs (st_start st)).
  unfold chunk_step. cbn [st_start]. destruct (_ <=? 0) eqn:E; lia.
Qed.

Lemma run_loop_reaches_end (text : str) (cs ov : Z) :
  0 < cs -> ov < cs -> ov <= 1 ->
  forall n st, 0 <= st_start st -> len text - st_start st <= Z.of_nat n ->
  loop_cond text (run_loop n text cs ov st) = false.
Proof.
  intros Hcs Hov H1 n. induction n as [|k IH]; intros st Hst Hn.
  - cbn. unfold loop_cond. apply Z.ltb_ge. lia.
  - cbn [run_loop]. destruct (loop_cond text st) eqn:C; [|exact C].
    pose proof (chunk_step_progress text cs ov st Hcs Hov H1 Hst).
    apply IH; lia.
Qed.

(** *** Termination where it holds *)

(** With [overlap <= 1] (in particular the default [overlap = 0]) the loop of
    [create_document_chunks] ends within [len(text)] iterations. *)
Theorem create_document_chunks_terminates (text : str) (cs ov : Z) :
  0 < cs -> ov < cs -> ov <= 1 ->
  exists l, create_document_chunks (List.length text) text cs ov = Some l.
Proof.
  intros Hcs Hov H1. unfold create_document_chunks, chunk_loop.
  destruct (negb (truthy text)); [now eexists|].
  rewrite (run_loop_reaches_end text cs ov Hcs Hov H1); [now eexists | |].
  - cbn. lia.
  - cbn. unfold len. lia.
Qed.

Lemma stuck_step (chunks : list str) :
  chunk_step stuck_text 3 2 (mkState 1 chunks) =
  mkState 1 (chunks ++ [of_string "b"]).
Proof. reflexivity. Qed.

Lemma stuck_loop (n : nat) (chunks : list str) :
  st_start (run_loop n stuck_text 3 2 (mkState 1 chunks)) = 1.
Proof.
  revert chunks. induction n as [|k IH]; intros chunks; [reflexivity|].
  cbn [run_loop]. change (loop_cond stuck_text (mkState 1 chunks)) with true.
  cbv iota. rewrite stuck_step. apply IH.
Qed.

Lemma create_document_chunks_terminates_witness :
  exists l,
    create_document_chunks (List.length (of_string "ab cdefgh"))
                           (of_string "ab cdefgh") 3 0 = Some l.
Proof.
  apply (create_document_chunks_terminates (of_string "ab cdefgh") 3 0); lia.
Defined.

(** C2. The chunking loop does not terminate for every input with
    [0 <= overlap < maxSize]: on the text "ab cdefgh" with [chunk_size = 3] and
    [overlap = 2] the second iteration starts at position 1, cuts the window
    after the space at position 2 and moves [start] back to [3 - 2 = 1]; the
    guard [start <= 0] does not fire, so no number of iterations ends the
    loop. *)
Theorem create_document_chunks_diverges :
  forall fuel : nat, create_document_chunks fuel stuck_text 3 2 = None.
Proof.
  intros fuel. unfold create_document_chunks, chunk_loop.
  change (negb (truthy stuck_text)) with false. cbv iota.
  assert (H : st_start (run_loop fuel stuck_text 3 2 initial) = 1 \/
              st_start (run_loop fuel stuck_text 3 2 initial) = 0).
  { destruct fuel as [|k]; [now right | left].
    cbn [run_loop]. change (loop_cond stuck_text initial) with true. cbv iota.
    change (chunk_step stuck_text 3 2 initial)
      with (mkState 1 [of_string "ab"]).
    apply stuck_loop. }
  unfold loop_cond. destruct H as [-> | ->]; reflexivity.
Qed.

(** *** Size and shape of the chunks *)

(** C7. With [chunk_size > 0] every chunk the loop has collected, after any
    number of iterations, is at most [chunk_size] characters long; so is every
    string of the returned list. *)
Theorem chunks_within_chunk_size (text : str) (cs ov : Z) :
  0 < cs ->
  (forall n, Forall (fun c => len c <= cs)
                    (st_chunks (run_loop n text cs ov initial))) /\
  (forall fuel l, create_document_chunks fuel text cs ov = Some l ->
                  Forall (fun c => len c <= cs) l).
Proof.
  intros Hcs.
  assert (H : forall n, sized cs (run_loop n text cs ov initial)).
  { intros n. apply run_loop_invariant.
    - intros st. now apply chunk_step_sized.
    - split; [cbn; lia | constructor]. }
  split; [intros n; apply H|].
  intros fuel l Hl.
  destruct (create_document_chunks_result _ _ _ _ _ Hl) as [-> | ->];
    [constructor | apply H].
Qed.

Lemma chunks_within_chunk_size_witness :
  create_document_chunks 4 (of_string "The quick brown fox jumps") 10 2 =
    Some (List.map of_string ["The quick"; "k brown"; "n fox"; "x jumps"]%string)
  /\ Forall (fun c => len c <= 10)
            (List.map of_string
                      ["The quick"; "k brown"; "n fox"; "x jumps"]%string).
Proof.
  split; [reflexivity|].
  apply (proj2 (chunks_within_chunk_size
                  (of_string "The quick brown fox jumps") 10 2 eq_refl) 4%nat).
  reflexivity.
Defined.

(** C9. Every chunk the loop has collected, after any number of iterations,
    is non-empty and equal to its own [strip]; so is every string of the
    returned list: a window whose slice is only whitespace adds nothing. *)
Theorem chunks_stripped_nonempty (text : str) (cs ov : Z) :
  (forall n, Forall (fun c => c <> [] /\ strip c = c)
                    (st_chunks (run_loop n text cs ov initial))) /\
  (forall fuel l, create_document_chunks fuel text cs ov = Some l ->
                  Forall (fun c => c <> [] /\ strip c = c) l).
Proof.
  assert (H : forall n, Forall clean
                          (st_chunks (run_loop n text cs ov initial))).
  { intros n.
    apply (run_loop_invariant (fun st => Forall clean (st_chunks st))).
    - intros st. apply chunk_step_clean.
    - constructor. }
  split; [intros n; apply H|].
  intros fuel l Hl.
  destruct (create_document_chunks_result _ _ _ _ _ Hl) as [-> | ->];
    [constructor | apply H].
Qed.

(** A window of whitespace is dropped: three spaces give no chunk. *)
Example whitespace_window_dropped :
  create_document_chunks 1 (of_string "   ") 10 0 = Some [].
Proof. reflexivity. Qed.

(** *** Short texts *)

(** C6, as stated, fails in two ways: a text of whitespace only gives no
    chunk, and a text shorter than [maxSize] gives several chunks when the
    overlap leaves [maxSize - overlap] short of the end of the text. *)
Lemma short_text_not_one_chunk :
  (of_string " " <> [] /\ len (of_string " ") < 10 /\ 0 <= 0 < 10 /\
   create_document_chunks 1 (of_string " ") 10 0 = Some []) /\
  (of_string "abcde" <> [] /\ len (of_string "abcde") < 6 /\ 0 <= 4 < 6 /\
   create_document_chunks 3 (of_string "abcde") 6 4 =
     Some (List.map of_string ["abcde"; "cde"; "e"]%string)).
Proof.
  repeat split; try discriminate; try reflexivity.
Qed.

Lemma create_document_chunks_empty (fuel : nat) (cs ov : Z) :
  create_document_chunks fuel [] cs ov = Some [].
Proof. reflexivity. Qed.

(** C6 (amended). The empty text gives the empty list. A text that holds a
    character other than whitespace and ends within [maxSize - overlap]
    characters ([0 <= overlap]) gives exactly one chunk, the stripped text,
    after one iteration. *)
Theorem short_text_single_chunk (fuel : nat) (text : str) (cs ov : Z) :
  has_text text = true -> 0 <= ov -> len text + ov <= cs ->
  create_document_chunks fuel [] cs ov = Some [] /\
  create_document_chunks (S fuel) text cs ov = Some [strip text].
Proof.
  intros Ht Hov Hlen. split; [reflexivity|].
  pose proof (has_text_truthy text Ht) as Hne.
  assert (Hpos : 0 < len text).
  { destruct text; [discriminate | unfold len; cbn; lia]. }
  unfold create_document_chunks, chunk_loop. rewrite Hne. cbn [negb run_loop].
  assert (Hc : loop_cond text initial = true).
  { unfold loop_cond. cbn. apply Z.ltb_lt. exact Hpos. }
  rewrite Hc.
  assert (Hstep : chunk_step text cs ov initial =
                  mkState (cs - ov) [strip text]).
  { unfold chunk_step, window_end. cbn [st_start st_chunks initial].
    rewrite Z.add_0_l.
    replace (cs <? len text) with false by (symmetry; apply Z.ltb_ge; lia).
    rewrite slice_all by lia.
    rewrite (has_text_truthy _ (strip_has_text _ Ht)).
    replace (cs - ov <=? 0) with false by (symmetry; apply Z.leb_gt; lia).
    reflexivity. }
  rewrite Hstep.
  assert (Hd : loop_cond text (mkState (cs - ov) [strip text]) = false).
  { unfold loop_cond. cbn. apply Z.ltb_ge. lia. }
  rewrite run_loop_done by exact Hd. now rewrite Hd.
Qed.

Lemma short_text_single_chunk_witness :
  create_document_chunks 0 [] 1000 200 = Some [] /\
  create_document_chunks 1 (of_string " hello world ") 1000 200 =
    Some [strip (of_string " hello world ")].
Proof.
  apply (short_text_single_chunk 0 (of_string " hello world ") 1000 200);
    [reflexivity | lia | vm_compute; discriminate].
Defined.

End ChunkerFacts.

(** ** The context optimizer *)

Module RagFacts.
Import Py PyFacts Search Rag.

Lemma total_content_length_app (l1 l2 : list SearchResult) :
  total_content_length (l1 ++ l2) =
  total_content_length l1 + total_content_length l2.
Proof.
  induction l1 as [|r l IH]; cbn; [reflexivity|].
  fold (total_content_length (l ++ l2)). fold (total_content_length l).
  rewrite IH. lia.
Qed.

Lemma optimize_loop_total (max_len : Z) (sorted : list SearchResult) :
  forall total acc,
    total = total_content_length acc -> total <= max_len ->
    total_content_length (optimize_loop max_len sorted total acc) <= max_len + 3.
Proof.
  induction sorted as [|r rest IH]; intros total acc Ht Hle; cbn [optimize_loop].
  - lia.
  - cbv zeta. destruct (total + len (content r) <=? max_len) eqn:E.
    + apply IH; [|lia].
      rewrite total_content_length_app. cbn. lia.
    + destruct (max_len - total >? 100) eqn:R; [|lia].
      rewrite total_content_length_app. cbn [total_content_length fold_right].
      cbn [content with_content]. rewrite len_app.
      pose proof (len_slice_to (content r) (max_len - total)).
      change (len (of_string "...")) with 3. lia.
Qed.

(** What the code does guarantee: the total content length stays within
    [max_context_length + 3], the three characters being the "..." appended
    after the cut. *)
Theorem optimize_context_bound (query : str) (context : list SearchResult)
        (max_len : Z) :
  0 <= max_len ->
  total_content_length (optimize_context query context max_len) <= max_len + 3.
Proof.
  intros H. unfold optimize_context.
  destruct (negb (truthy context)); [cbn; lia|].
  now apply optimize_loop_total.
Qed.

Lemma optimize_context_bound_witness :
  total_content_length (optimize_context (of_string "q") [long_result] 1000)
  <= 1000 + 3.
Proof.
  apply (optimize_context_bound (of_string "q") [long_result] 1000). lia.
Defined.

(** C1. The budget is not respected when the last result is a truncated
    copy: for one result of 1500 characters and [max_context_length = 1000]
    the returned copy holds the first 1000 characters followed by "...", 1003
    characters in all. *)
Theorem optimize_context_over_budget :
  let out := optimize_context (of_string "q") [long_result] 1000 in
  List.map (fun r => len (content r)) out = [1003] /\
  List.map (fun r => slice (content r) 1000 1003) out = [of_string "..."] /\
  total_content_length out = 1003.
Proof. vm_compute. repeat split. Qed.

End RagFacts.

(** ** Hybrid fusion *)

Module FusionFacts.
Import Py Search Fusion.
Local Open Scope float_scope.

Lemma dict_get_set_same (k : UUID) (v : combined) (d : dict) :
  dict_get k (dict_set k v d) = Some v.
Proof.
  induction d as [|[k' v'] r IH]; cbn.
  - now rewrite N.eqb_refl.
  - destruct (N.eqb k' k) eqn:E; cbn; [now rewrite N.eqb_refl | now rewrite E].
Qed.

Lemma dict_get_set_other (k k' : UUID) (v : combined) (d : dict) :
  k <> k' -> dict_get k' (dict_set k v d) = dict_get k' d.
Proof.
  intros Hne. induction d as [|[k0 v0] r IH]; cbn.
  - destruct (N.eqb k k') eqn:E; [apply N.eqb_eq in E; contradiction | reflexivity].
  - destruct (N.eqb k0 k) eqn:E; cbn.
    + apply N.eqb_eq in E. subst k0.
      destruct (N.eqb k k') eqn:E'; [apply N.eqb_eq in E'; contradiction | reflexivity].
    + destruct (N.eqb k0 k'); [reflexivity | exact IH].
Qed.

Lemma semantic_loop_get (w : float) (c : UUID) (l : list SearchResult) :
  forall d,
    dict_get c (fold_left (add_semantic w) l d) =
    match last_with_id c l with
    | Some r => Some (semantic_entry w r)
    | None => dict_get c d
    end.
Proof.
  induction l as [|r rest IH]; intros d; cbn [fold_left last_with_id];
    [reflexivity|].
  rewrite IH. destruct (last_with_id c rest); [reflexivity|].
  unfold add_semantic. destruct (N.eqb (chunk_id r) c) eqn:E.
  - apply N.eqb_eq in E. subst c. apply dict_get_set_same.
  - apply dict_get_set_other. intros H. rewrite H, N.eqb_refl in E. discriminate.
Qed.

Lemma add_vector_other (w : float) (c : UUID) (d : dict) (r : SearchResult) :
  chunk_id r <> c -> dict_get c (add_vector w d r) = dict_get c d.
Proof.
  intros H. unfold add_vector.
  destruct (dict_get (chunk_id r) d); now apply dict_get_set_other.
Qed.

Lemma vector_loop_absent (w : float) (c : UUID) (l : list SearchResult) :
  forall d, count_id c l = 0%nat ->
            dict_get c (fold_left (add_vector w) l d) = dict_get c d.
Proof.
  induction l as [|r rest IH]; intros d Hc; cbn [fold_left]; [reflexivity|].
  unfold count_id in Hc. cbn [filter] in Hc.
  destruct (N.eqb (chunk_id r) c) eqn:E; [discriminate|].
  rewrite IH by exact Hc. apply add_vector_other.
  intros H. rewrite H, N.eqb_refl in E. discriminate.
Qed.

Lemma vector_loop_get (w : float) (c : UUID) (l : list SearchResult) :
  forall d, (count_id c l <= 1)%nat ->
            dict_get c (fold_left (add_vector w) l d) =
            match first_with_id c l with
            | Some r => Some (vector_entry w (dict_get c d) r)
            | None => dict_get c d
            end.
Proof.
  induction l as [|r rest IH]; intros d Hc; cbn [fold_left]; [reflexivity|].
  unfold first_with_id, count_id in *. cbn [find filter] in *.
  destruct (N.eqb (chunk_id r) c) eqn:E.
  - cbn [List.length] in Hc.
    rewrite vector_loop_absent by (unfold count_id; lia).
    apply N.eqb_eq in E. subst c. unfold add_vector, vector_entry.
    destruct (dict_get (chunk_id r) d); apply dict_get_set_same.
  - rewrite IH by exact Hc.
    rewrite add_vector_other; [reflexivity|].
    intros H. rewrite H, N.eqb_refl in E. discriminate.
Qed.

(** The fused score of a chunk id that occurs at most once in the vector
    list, by where the id occurs; in the semantic list the last result with
    that id counts, since a later entry overwrites an earlier one. *)
Lemma fused_score_by_occurrence
      (semantic_results vector_results : list SearchResult)
      (semantic_weight vector_weight : float) (c : UUID) :
  (count_id c vector_results <= 1)%nat ->
  fused_score (combined_dict semantic_results vector_results
                             semantic_weight vector_weight) c =
  match last_with_id c semantic_results, first_with_id c vector_results with
  | Some s, Some v =>
      Some (similarity_score s * semantic_weight
            + similarity_score v * vector_weight)
  | Some s, None => Some (similarity_score s * semantic_weight)
  | None, Some v => Some (similarity_score v * vector_weight)
  | None, None => None
  end.
Proof.
  intros Hc. unfold fused_score, combined_dict.
  rewrite vector_loop_get by exact Hc. rewrite semantic_loop_get.
  destruct (last_with_id c semantic_results) as [s|];
    destruct (first_with_id c vector_results) as [v|]; reflexivity.
Qed.

Lemma last_with_id_absent (c : UUID) (l : list SearchResult) :
  ~ In c (List.map chunk_id l) -> last_with_id c l = None.
Proof.
  induction l as [|r rest IH]; cbn [List.map last_with_id In]; intros H;
    [reflexivity|].
  rewrite IH by tauto.
  destruct (N.eqb (chunk_id r) c) eqn:E; [|reflexivity].
  apply N.eqb_eq in E. tauto.
Qed.

Lemma first_with_id_absent (c : UUID) (l : list SearchResult) :
  ~ In c (List.map chunk_id l) -> first_with_id c l = None.
Proof.
  unfold first_with_id.
  induction l as [|r rest IH]; cbn [List.map find In]; intros H;
    [reflexivity|].
  destruct (N.eqb (chunk_id r) c) eqn:E; [|apply IH; tauto].
  apply N.eqb_eq in E. tauto.
Qed.

Lemma count_id_absent (c : UUID) (l : list SearchResult) :
  ~ In c (List.map chunk_id l) -> count_id c l = 0%nat.
Proof.
  unfold count_id.
  induction l as [|r rest IH]; cbn [List.map filter In]; intros H;
    [reflexivity|].
  destruct (N.eqb (chunk_id r) c) eqn:E; [|apply IH; tauto].
  apply N.eqb_eq in E. tauto.
Qed.

Lemma last_with_id_unique (s : SearchResult) (l : list SearchResult) :
  NoDup (List.map chunk_id l) -> In s l ->
  last_with_id (chunk_id s) l = Some s.
Proof.
  induction l as [|r rest IH]; cbn [List.map last_with_id];
    intros Hn Hin; [contradiction|].
  inversion Hn as [|x xs Hnot Hrest]; subst.
  destruct Hin as [-> | Hin].
  - rewrite last_with_id_absent by exact Hnot. now rewrite N.eqb_refl.
  - now rewrite IH.
Qed.

Lemma first_with_id_unique (v : SearchResult) (l : list SearchResult) :
  NoDup (List.map chunk_id l) -> In v l ->
  first_with_id (chunk_id v) l = Some v.
Proof.
  unfold first_with_id.
  induction l as [|r rest IH]; cbn [List.map find];
    intros Hn Hin; [contradiction|].
  inversion Hn as [|x xs Hnot Hrest]; subst.
  destruct Hin as [-> | Hin]; [now rewrite N.eqb_refl|].
  destruct (N.eqb (chunk_id r) (chunk_id v)) eqn:E; [|now apply IH].
  apply N.eqb_eq in E. exfalso. apply Hnot. rewrite E.
  now apply in_map.
Qed.

Lemma count_id_unique (c : UUID) (l : list SearchResult) :
  NoDup (List.map chunk_id l) -> (count_id c l <= 1)%nat.
Proof.
  induction l as [|r rest IH]; cbn [List.map]; intros Hn; [cbn; lia|].
  inversion Hn as [|x xs Hnot Hrest]; subst.
  unfold count_id. cbn [filter].
  destruct (N.eqb (chunk_id r) c) eqn:E; [|now apply IH].
  apply N.eqb_eq in E. subst c. cbn [List.length].
  pose proof (count_id_absent _ _ Hnot) as Z0. unfold count_id in Z0. lia.
Qed.

(** C3. With each list holding a chunk at most once, as the two searches
    return them, [_combine_search_results] gives a chunk of the semantic
    (lexical) list only exactly its score times the semantic weight, a chunk
    of the vector list only exactly its score times the vector weight, and a
    chunk of both lists exactly [lexicalScore * wLex + vectorScore * wVec];
    a chunk of neither list has no fused score. Scores and weights are
    binary64 floats and the equalities are exact. *)
Theorem fused_score_exact (semantic_results vector_results : list SearchResult)
        (semantic_weight vector_weight : float) :
  NoDup (List.map chunk_id semantic_results) ->
  NoDup (List.map chunk_id vector_results) ->
  let fused := fused_score (combined_dict semantic_results vector_results
                                          semantic_weight vector_weight) in
  (forall s, In s semantic_results ->
             ~ In (chunk_id s) (List.map chunk_id vector_results) ->
             fused (chunk_id s) = Some (similarity_score s * semantic_weight))
  /\
  (forall v, In v vector_results ->
             ~ In (chunk_id v) (List.map chunk_id semantic_results) ->
             fused (chunk_id v) = Some (similarity_score v * vector_weight))
  /\
  (forall s v, In s semantic_results -> In v vector_results ->
               chunk_id s = chunk_id v ->
               fused (chunk_id s) = Some (similarity_score s * semantic_weight
                                          + similarity_score v * vector_weight))
  /\
  (forall c, ~ In c (List.map chunk_id semantic_results) ->
             ~ In c (List.map chunk_id vector_results) ->
             fused c = None).
Proof.
  intros Hs Hv fused. subst fused. repeat split.
  - intros s Hin Hout.
    rewrite fused_score_by_occurrence by now apply count_id_unique.
    now rewrite (last_with_id_unique s _ Hs Hin), first_with_id_absent.
  - intros v Hin Hout.
    rewrite fused_score_by_occurrence by now apply count_id_unique.
    now rewrite (first_with_id_unique v _ Hv Hin), last_with_id_absent.
  - intros s v Hins Hinv E.
    rewrite fused_score_by_occurrence by now apply count_id_unique.
    rewrite (last_with_id_unique s _ Hs Hins), E.
    now rewrite (first_with_id_unique v _ Hv Hinv).
  - intros c Hns Hnv.
    rewrite fused_score_by_occurrence by now apply count_id_unique.
    now rewrite last_with_id_absent, first_with_id_absent.
Qed.

Lemma fused_score_exact_witness :
  fused_score (combined_dict [result_a; result_c_semantic]
                             [result_b; result_c_vector] 0.7 0.3) 1%N
  = Some (1.0 * 0.7) /\
  fused_score (combined_dict [result_a; result_c_semantic]
                             [result_b; result_c_vector] 0.7 0.3) 2%N
  = Some (0.9 * 0.3) /\
  fused_score (combined_dict [result_a; result_c_semantic]
                             [result_b; result_c_vector] 0.7 0.3) 3%N
  = Some (0.5 * 0.7 + 0.4 * 0.3) /\
  fused_score (combined_dict [result_a; result_c_semantic]
                             [result_b; result_c_vector] 0.7 0.3) 4%N
  = None.
Proof.
  assert (Hs : NoDup (List.map chunk_id [result_a; result_c_semantic])).
  { cbn. repeat constructor; cbn; intuition discriminate. }
  assert (Hv : NoDup (List.map chunk_id [result_b; result_c_vector])).
  { cbn. repeat constructor; cbn; intuition discriminate. }
  destruct (fused_score_exact [result_a; result_c_semantic]
                              [result_b; result_c_vector] 0.7 0.3 Hs Hv)
    as (Only_s & Only_v & Both & Neither).
  cbv zeta. split; [|split; [|split]].
  - apply (Only_s result_a); cbn; intuition discriminate.
  - apply (Only_v result_b); cbn; intuition discriminate.
  - apply (Both result_c_semantic result_c_vector); cbn; auto.
  - apply (Neither 4%N); cbn; intuition discriminate.
Defined.

(** The scenario of the ranking: weights 0.7 and 0.3, chunk 1 with lexical
    score 1.0 only and chunk 2 with vector score 0.9 only are fused to 0.7
    and 0.27, and chunk 1 is ranked first. *)
Example fused_ranking_scenario :
  fused_score (combined_dict [result_a] [result_b] 0.7 0.3) 1%N = Some 0.7 /\
  fused_score (combined_dict [result_a] [result_b] 0.7 0.3) 2%N = Some 0.27 /\
  List.map chunk_id (_combine_search_results [result_a] [result_b] 0.7 0.3 10)
  = [1%N; 2%N].
Proof. vm_compute. repeat split. Qed.

(** Outside that case the two loops differ: a chunk id repeated in the
    semantic list overwrites the earlier entry, while one repeated in the
    vector list adds its weighted score once per occurrence. *)
Example repeated_vector_id_adds_twice :
  let a := mkSearchResult 7%N 1%N [] 1%N [] [] 0%Z 0.5 in
  fused_score (combined_dict [a; a] [] 0.5 0.5) 7%N = Some 0.25 /\
  fused_score (combined_dict [] [a; a] 0.5 0.5) 7%N = Some 0.5.
Proof. vm_compute. repeat split. Qed.

End FusionFacts.

(** ** The weight check of the hybrid search endpoint *)

Module SearchApiFacts.
Import Py Search Fusion SearchApi.
Local Open Scope float_scope.

(** C4. The endpoint rejects a call whose weights are off,
    [abs(wLex + wVec - 1.0) > 0.01], with the 400 error, without calling the
    search service and leaving the store (tables and search log) as it was;
    every other call goes to [SearchService.hybrid_search] with the same
    arguments, whose response is returned and whose failure is reported. *)
Theorem hybrid_search_weight_check
        (store : Type) (clock : store -> float)
        (semantic_search vector_search :
           str -> option UUID -> Z -> store -> outcome SearchResponse * store)
        (log : str -> Z -> float -> string -> option UUID -> option exn ->
               store -> store)
        (a : hybrid_args) (db : store) :
  let served := service_hybrid_search store clock semantic_search
                                      vector_search log a db in
  let answer := run store clock semantic_search vector_search log
                    (hybrid_search a) db in
  if PrimFloat.ltb 0.01
       (abs (arg_semantic_weight a + arg_vector_weight a - 1.0))
  then hybrid_search a = Finish (Raised bad_weights) /\
       answer = (Raised bad_weights, db)
  else hybrid_search a = CallHybridSearch a endpoint_except /\
       answer = (endpoint_except (fst served), snd served) /\
       (forall r, fst served = Returned r -> fst answer = Returned r).
Proof.
  cbv zeta. unfold hybrid_search, weights_off.
  destruct (PrimFloat.ltb _ _).
  - split; reflexivity.
  - cbn [run].
    destruct (service_hybrid_search _ _ _ _ _ a db) as [o db'].
    cbn [fst snd]. repeat split. intros r ->. reflexivity.
Qed.

(** Scenario: weights 0.8 and 0.3 are rejected; 0.7 and 0.3, and 0.6 and
    0.4, pass. *)
Example weights_scenarios :
  weights_off 0.8 0.3 = true /\ weights_off 0.7 0.3 = false /\
  weights_off 0.6 0.4 = false /\ weights_off 0.5 0.505 = false /\
  hybrid_search (mkHybridArgs (of_string "q") None 10 0.8 0.3)
  = Finish (Raised bad_weights).
Proof. vm_compute. repeat split. Qed.

(** The service method itself does not look at the weights: with weights
    0.8 and 0.3, and both searches answering with nothing found, it fuses and
    logs the search like with any other weights. The store here is the list
    of logged searches, each with its result count and whether it carries an
    error; the second entry and the exception come from building the
    response. *)
Example service_takes_any_weights :
  let nothing (q : str) (d : option UUID) (l : Z) (db : list (Z * bool)) :=
    (Returned (mkSearchResponse q [] 0 0 None None), db) in
  let log (q : str) (n : Z) (t : float) (kind : string) (d : option UUID)
          (e : option exn) (db : list (Z * bool)) :=
    db ++ [(n, match e with Some _ => true | None => false end)] in
  service_hybrid_search (list (Z * bool)) (fun _ => 0) nothing nothing log
                        (mkHybridArgs (of_string "q") None 10 0.8 0.3) []
  = (Raised (Exception "validation errors for SearchResponse"),
     [(0%Z, false); (0%Z, true)]).
Proof. vm_compute. reflexivity. Qed.

End SearchApiFacts.

(** ** The placeholder embedding *)

Module EmbeddingFacts.
Import Py PyFacts Hashing Embedding.

Lemma list_set_length {A : Type} (x : A) (l : list A) :
  forall i, (i < List.length l)%nat ->
            exists l', list_set i x l = Some l' /\ List.length l' = List.length l.
Proof.
  induction l as [|y r IH]; intros i Hi; cbn in Hi; [lia|].
  destruct i as [|k]; cbn.
  - eexists. split; reflexivity.
  - destruct (IH k) as [l' [E L]]; [lia|].
    rewrite E. cbn. eexists. split; [reflexivity|]. cbn. now rewrite L.
Qed.

(** The loop fills a prefix of the placeholder and keeps its length. *)
Lemma fill_length (chars : str) :
  forall i p, (i + List.length chars <= List.length p)%nat ->
              exists e, fill i chars p = Some e /\ List.length e = List.length p.
Proof.
  induction chars as [|c rest IH]; intros i p H; cbn [fill].
  - eexists. split; reflexivity.
  - cbn in H.
    destruct (list_set_length
                (PrimFloat.div (float_of_Z (Z.of_N c - 97)) 26) p i)
      as [p' [E L]]; [lia|].
    rewrite E. destruct (IH (S i) p') as [e [E' L']]; [lia|].
    exists e. split; [exact E' | congruence].
Qed.

(** How the body ends, by the text: no text, a text that cannot be encoded,
    or an embedding of the configured dimension. *)
Lemma embedding_body_ends (dim : Z) (text : str) :
  0 <= dim ->
  match text, encode text with
  | [], _ => embedding_body dim text = ReturnNone
  | _ :: _, None => embedding_body dim text = RaisedError
  | _ :: _, Some _ =>
      exists e, embedding_body dim text = ReturnEmbedding e /\ len e = dim
  end.
Proof.
  intros Hdim. destruct text as [|c r]; [reflexivity|].
  unfold embedding_body. cbn [truthy negb].
  destruct (encode (c :: r)) as [bytes|]; [|reflexivity].
  set (h := md5_hexdigest bytes).
  destruct (fill_length (slice_to h (Z.min (len h) dim)) 0
                        (repeat PrimFloat.zero (Z.to_nat dim)))
    as [e [E L]].
  - rewrite repeat_length.
    pose proof (len_slice_to h (Z.min (len h) dim)) as Hs.
    pose proof (len_nonneg h). unfold len in *. lia.
  - rewrite E. exists e. split; [reflexivity|].
    unfold len. rewrite L, repeat_length. lia.
Qed.

(** C10, as stated, fails on a text that is not empty but cannot be encoded
    as UTF-8: for the lone surrogate U+D800 the encoding raises, the [except]
    branch logs the error and the function returns [None]. *)
Lemma lone_surrogate_gives_none :
  [55296%N] <> ([] : str) /\
  create_embedding 1536 [55296%N] [] =
    (None, [(ERROR, "Error creating embedding"%string)]).
Proof. split; [discriminate | reflexivity]. Qed.

(** C10 (amended). For a dimension [VECTOR_DIMENSION >= 0] the result of
    [create_embedding] depends on the text alone (not on what has been
    logged); it is [None] exactly when the text is empty or has no UTF-8
    encoding (a lone surrogate), and otherwise a vector whose length is
    [VECTOR_DIMENSION]. *)
Theorem create_embedding_result (dim : Z) (text : str) (log1 log2 : logger) :
  0 <= dim ->
  fst (create_embedding dim text log1) = fst (create_embedding dim text log2) /\
  (fst (create_embedding dim text log1) = None <->
   text = [] \/ encode text = None) /\
  (forall e, fst (create_embedding dim text log1) = Some e -> len e = dim).
Proof.
  intros Hdim. pose proof (embedding_body_ends dim text Hdim) as H.
  unfold create_embedding.
  destruct text as [|c r].
  - rewrite H. cbn. repeat split; auto; discriminate.
  - destruct (encode (c :: r)) as [bytes|].
    + destruct H as [e [-> L]]. cbn. repeat split.
      * discriminate.
      * intros [?|?]; discriminate.
      * intros e' [= <-]. exact L.
    + rewrite H. cbn. repeat split; auto; discriminate.
Qed.

Lemma create_embedding_result_witness :
  fst (create_embedding 1536 (of_string "abc") []) =
  fst (create_embedding 1536 (of_string "abc")
                        [(ERROR, "Error creating embedding"%string)]) /\
  (fst (create_embedding 1536 (of_string "abc") []) = None <->
   of_string "abc" = [] \/ encode (of_string "abc") = None) /\
  (forall e, fst (create_embedding 1536 (of_string "abc") []) = Some e ->
             len e = 1536).
Proof.
  apply (create_embedding_result 1536 (of_string "abc") []
           [(ERROR, "Error creating embedding"%string)]).
  lia.
Defined.

(** The first components of the embedding of "abc" come from the digest
    "900150983cd24fb0d6963f7d28e17f72": each is [(ord(char) - 97) / 26]. *)
Example create_embedding_abc :
  option_map (fun e => (len e, firstn 2 e, nth 32 e PrimFloat.one))
             (fst (create_embedding 1536 (of_string "abc") []))
  = Some (1536,
          [PrimFloat.div (float_of_Z (57 - 97)) 26;
           PrimFloat.div (float_of_Z (48 - 97)) 26],
          PrimFloat.zero).
Proof. vm_compute. reflexivity. Qed.

Example md5_hexdigest_abc :
  option_map md5_hexdigest (encode (of_string "abc"))
  = Some (of_string "900150983cd24fb0d6963f7d28e17f72").
Proof. vm_compute. reflexivity. Qed.

(** Every dimension the configuration accepts is covered. *)
Lemma validated_dimension_nonneg (v d : Z) :
  validate_vector_dimension v = Some d -> 0 <= d.
Proof.
  unfold validate_vector_dimension. cbn [existsb].
  destruct (orb _ _) eqn:E; [|discriminate]. intros [= <-].
  repeat (apply orb_prop in E; destruct E as [E|E];
          [apply Z.eqb_eq in E; lia|]).
  discriminate.
Qed.

End EmbeddingFacts.

(** ** Ingestion *)

Module IngestionFacts.
Import Py Search Store Chunker Ingestion.

Lemma get_document_updated (id : UUID) (s : string) (db : database)
      (d : Document) :
  get_document id db = Some d ->
  get_document id (update_document_status id s db) = Some (set_status s d).
Proof.
  unfold get_document, update_document_status. cbn [documents].
  induction (documents db) as [|x l IH]; cbn [find List.map]; [discriminate|].
  destruct (N.eqb (doc_id x) id) eqn:E.
  - intros [= ->]. cbn [set_status doc_id]. now rewrite E.
  - rewrite E. exact IH.
Qed.

Lemma status_after_update (id : UUID) (s : string) (db : database)
      (d : Document) :
  get_document id db = Some d ->
  option_map status (get_document id (update_document_status id s db)) = Some s.
Proof. intros H. now rewrite (get_document_updated id s db d H). Qed.

(** What makes the extraction come back without text: a missing file, a type
    other than txt, pdf, docx and doc, or a text file that is empty or does
    not decode. *)
Lemma extraction_failures (fs : filesystem) (d : Document) :
  fs (file_path d) = None \/
  (str_eqb (lower (file_type d)) (of_string "txt") = false /\
   str_eqb (lower (file_type d)) (of_string "pdf") = false /\
   str_eqb (lower (file_type d)) (of_string "docx") = false /\
   str_eqb (lower (file_type d)) (of_string "doc") = false) \/
  (str_eqb (lower (file_type d)) (of_string "txt") = true /\
   (fs (file_path d) = Some Undecodable \/ fs (file_path d) = Some (Text []))) ->
  no_text (extract_text_from_document fs d) = true.
Proof.
  unfold extract_text_from_document, extract_text_from_txt.
  intros [H | [(H1 & H2 & H3 & H4) | (H1 & [H | H])]].
  - now rewrite H.
  - destruct (fs (file_path d)); [|reflexivity]. now rewrite H1, H2, H3, H4.
  - now rewrite H, H1.
  - now rewrite H, H1.
Qed.

(** C5. When the extraction returns no text (the file is missing, its type
    is unsupported, or it is a text file that is empty or cannot be decoded),
    [process_document] returns with the document in status "failed" and the
    chunk table exactly as it was: nothing is written before the status
    changes. *)
Theorem failed_extraction_marks_failed (fuel : nat) (fs : filesystem)
        (st : settings) (id : UUID) (db : database) (document : Document) :
  get_document id db = Some document ->
  no_text (extract_text_from_document fs document) = true ->
  exists db',
    process_document fuel fs st id db = Some (Done, db') /\
    option_map status (get_document id db') = Some "failed"%string /\
    chunks db' = chunks db.
Proof.
  intros Hd Hx. unfold process_document. rewrite Hd.
  exists (update_document_status id "failed"
            (update_document_status id "processing" db)).
  split; [|split].
  - destruct (extract_text_from_document fs document) as [[|c r]|];
      [reflexivity | discriminate | reflexivity].
  - apply (status_after_update id "failed" _ (set_status "processing" document)).
    now apply get_document_updated.
  - reflexivity.
Qed.

Lemma failed_extraction_marks_failed_witness :
  (exists db',
     process_document 0 corrupt_fs (mkSettings 1000 200) 1 (sample_db "TXT")
       = Some (Done, db') /\
     option_map status (get_document 1 db') = Some "failed"%string /\
     chunks db' = chunks (sample_db "TXT")) /\
  (exists db',
     process_document 0 corrupt_fs (mkSettings 1000 200) 1 (sample_db "exe")
       = Some (Done, db') /\
     option_map status (get_document 1 db') = Some "failed"%string /\
     chunks db' = chunks (sample_db "exe")).
Proof.
  split.
  - apply (failed_extraction_marks_failed 0 corrupt_fs (mkSettings 1000 200)
             1%N (sample_db "TXT")
             (mkDocument 1 9 (of_string "report") (of_string "/uploads/report")
                         120 (of_string "TXT") "pending"));
      reflexivity.
  - apply (failed_extraction_marks_failed 0 corrupt_fs (mkSettings 1000 200)
             1%N (sample_db "exe")
             (mkDocument 1 9 (of_string "report") (of_string "/uploads/report")
                         120 (of_string "exe") "pending"));
      reflexivity.
Defined.

(** *** Re-ingestion *)

(** [process_document] always returns or fails, and never touches the chunk
    table: when there is text, the lookup of [document.chunk_size] raises
    before the chunker runs. *)
Lemma process_document_chunks (fuel : nat) (fs : filesystem) (st : settings)
      (id : UUID) (db : database) :
  exists e db', process_document fuel fs st id db = Some (e, db') /\
                chunks db' = chunks db.
Proof.
  unfold process_document.
  destruct (get_document id db); [|now exists Done, db].
  destruct (extract_text_from_document fs d) as [[|c r]|];
    unfold document_chunk_size; eexists; eexists; split; reflexivity.
Qed.

(** Whatever the extraction returns, [process_document] leaves an existing
    document in status "failed": with text, the lookup of
    [document.chunk_size] raises and the [except] branch sets the status. *)
Theorem process_document_never_completes (fuel : nat) (fs : filesystem)
      (st : settings) (id : UUID) (db : database) (d : Document) :
  get_document id db = Some d ->
  exists e db', process_document fuel fs st id db = Some (e, db') /\
                option_map status (get_document id db') = Some "failed"%string.
Proof.
  intros Hd. unfold process_document. rewrite Hd.
  assert (Hs : option_map status
                 (get_document id
                    (update_document_status id "failed"
                       (update_document_status id "processing" db)))
               = Some "failed"%string).
  { apply (status_after_update id "failed" _ (set_status "processing" d)).
    now apply get_document_updated. }
  destruct (extract_text_from_document fs d) as [[|c r]|];
    unfold document_chunk_size; eexists; eexists; split;
    try reflexivity; exact Hs.
Qed.

Lemma process_document_never_completes_witness :
  exists e db',
    process_document 5 words_fs (mkSettings 1000 0) 1 (sample_db "txt")
      = Some (e, db') /\
    option_map status (get_document 1 db') = Some "failed"%string.
Proof.
  apply (process_document_never_completes
           5 words_fs (mkSettings 1000 0) 1%N (sample_db "txt")
           (mkDocument 1 9 (of_string "report") (of_string "/uploads/report")
                       120 (of_string "txt") "pending")).
  reflexivity.
Defined.

Lemma chunks_of_same (id : UUID) (db db' : database) :
  chunks db' = chunks db -> chunks_of id db' = chunks_of id db.
Proof. unfold chunks_of. now intros ->. Qed.

Lemma truthy_insert_by_index (c : DocumentChunk) (l : list DocumentChunk) :
  truthy (insert_by_index c l) = true.
Proof. destruct l as [|y r]; cbn; [reflexivity|]. now destruct (_ <? _). Qed.

Lemma truthy_get_document_chunks (id : UUID) (db : database) :
  truthy (get_document_chunks id db) = truthy (chunks_of id db).
Proof.
  unfold get_document_chunks. destruct (chunks_of id db) as [|c l];
    [reflexivity|]. cbn [fold_right]. apply truthy_insert_by_index.
Qed.

Lemma count_from_lower (n : nat) :
  forall i x, In x (count_from i n) -> i <= x.
Proof.
  induction n as [|k IH]; intros i x; cbn; [easy|].
  intros [<- | H]; [lia|]. apply IH in H. lia.
Qed.

Lemma NoDup_count_from (n : nat) : forall i, NoDup (count_from i n).
Proof.
  induction n as [|k IH]; intros i; cbn; constructor; [|apply IH].
  intros H. apply count_from_lower in H. lia.
Qed.

(** The saving loop leaves the documents alone and appends one row per
    chunk, for this document, with consecutive indices and the chunk texts. *)
Lemma save_chunks_rows (id : UUID) (extra : list (string * Z))
      (texts : list str) :
  forall i db,
    documents (save_chunks id i texts extra db) = documents db /\
    exists rows,
      chunks (save_chunks id i texts extra db) = chunks db ++ rows /\
      Forall (fun c => dc_document_id c = id) rows /\
      List.map dc_chunk_index rows = count_from i (List.length texts) /\
      List.map dc_content rows = texts.
Proof.
  induction texts as [|t rest IH]; intros i db; cbn [save_chunks].
  - split; [reflexivity|]. exists []. rewrite app_nil_r. repeat split.
    constructor.
  - destruct (IH (i + 1)
                 (create_document_chunk id i t
                    (("chunk_size"%string, len t) :: extra) db))
      as [Hd [rows (Hc & Hf & Hi & Ht)]].
    split; [exact Hd|].
    exists (mkDocumentChunk (next_id db) id i t None None :: rows).
    rewrite Hc. cbn [create_document_chunk chunks].
    rewrite <- app_assoc. cbn [app List.map List.length count_from].
    repeat split.
    + constructor; [reflexivity | exact Hf].
    + now rewrite Hi.
    + now rewrite Ht.
Qed.

Lemma filter_all {A : Type} (f : A -> bool) (l : list A) :
  Forall (fun x => f x = true) l -> filter f l = l.
Proof.
  induction 1 as [|x r Hx _ IH]; cbn; [reflexivity|]. now rewrite Hx, IH.
Qed.

Lemma chunks_of_saved (id : UUID) (extra : list (string * Z))
      (texts : list str) (db : database) :
  chunks_of id db = [] ->
  exists rows,
    chunks_of id (save_chunks id 0 texts extra db) = rows /\
    List.map dc_chunk_index rows = count_from 0 (List.length texts) /\
    List.map dc_content rows = texts.
Proof.
  intros He.
  destruct (save_chunks_rows id extra texts 0 db)
    as [_ [rows (Hc & Hf & Hi & Ht)]].
  exists rows. split; [|split; assumption].
  unfold chunks_of in *. rewrite Hc, filter_app, He. cbn [app].
  apply filter_all. eapply Forall_impl; [|exact Hf].
  intros c ->. apply N.eqb_refl.
Qed.

Lemma get_document_saved (id : UUID) (extra : list (string * Z))
      (texts : list str) (db : database) :
  get_document id (save_chunks id 0 texts extra db) = get_document id db.
Proof.
  unfold get_document.
  now rewrite (proj1 (save_chunks_rows id extra texts 0 db)).
Qed.

Lemma truthy_false_nil {A : Type} (l : list A) : truthy l = false -> l = [].
Proof. destruct l; [reflexivity | discriminate]. Qed.

(** A second [chunk_document] with the same arguments returns at once and
    writes nothing. *)
Lemma chunk_document_again (fuel : nat) (fs : filesystem) (st : settings)
      (id : UUID) (cs ov : option Z) (db db1 : database) (e1 : task_end) :
  chunk_document fuel fs st id cs ov db = Some (e1, db1) ->
  chunk_document fuel fs st id cs ov db1 = Some (Done, db1) /\
  (NoDup (indices_of id db) -> NoDup (indices_of id db1)).
Proof.
  unfold chunk_document. intros H.
  destruct (get_document id db) as [d|] eqn:Hd.
  2:{ injection H as <- <-. rewrite Hd. now split. }
  destruct (truthy (get_document_chunks id db)) eqn:Hex.
  { injection H as <- <-. rewrite Hd, Hex. now split. }
  destruct (extract_text_from_document fs d) as [[|c r]|] eqn:Hx.
  1,3: injection H as <- <-; rewrite Hd, Hex, Hx; now split.
  destruct (create_document_chunks fuel (c :: r) _ _) as [texts|] eqn:Hc;
    [|discriminate].
  injection H as <- <-.
  rewrite truthy_get_document_chunks in Hex.
  apply truthy_false_nil in Hex.
  destruct (chunks_of_saved id
              [("overlap"%string, or_default ov (CHUNK_OVERLAP st))] texts db Hex)
    as [rows (Hr & Hi & Ht)].
  rewrite get_document_saved, Hd, truthy_get_document_chunks, Hr.
  split.
  - destruct rows as [|row rows'].
    + destruct texts as [|t ts]; [|discriminate Ht].
      cbn [save_chunks truthy]. now rewrite Hx, Hc.
    + reflexivity.
  - intros _. unfold indices_of. rewrite Hr, Hi. apply NoDup_count_from.
Qed.

(** C8. An ingestion attempt (either task) on a document whose stored chunk
    indices are distinct, in particular on one without chunks, followed by a
    second attempt of the same kind with the file unchanged: the second
    attempt ends, the document's chunk rows are those the first attempt left,
    and every chunk index occurs once. [chunk_document] returns early when
    chunks exist; [process_document] writes no chunk at all. *)
Theorem reingestion_no_duplicates (i : ingestion) (fuel : nat)
        (fs : filesystem) (st : settings) (id : UUID) (db db1 : database)
        (e1 : task_end) :
  NoDup (indices_of id db) ->
  attempt i fuel fs st id db = Some (e1, db1) ->
  exists e2 db2,
    attempt i fuel fs st id db1 = Some (e2, db2) /\
    chunks_of id db2 = chunks_of id db1 /\
    List.map dc_content (chunks_of id db2) = List.map dc_content (chunks_of id db1) /\
    NoDup (indices_of id db1) /\ NoDup (indices_of id db2).
Proof.
  intros Hn H. destruct i as [|cs ov]; cbn [attempt] in *.
  - destruct (process_document_chunks fuel fs st id db) as [e [db' [E C]]].
    rewrite E in H. injection H as <- <-.
    destruct (process_document_chunks fuel fs st id db') as [e2 [db2 [E2 C2]]].
    exists e2, db2. split; [exact E2|].
    unfold indices_of.
    rewrite (chunks_of_same id db' db2 C2), (chunks_of_same id db db' C).
    repeat split; exact Hn.
  - destruct (chunk_document_again fuel fs st id cs ov db db1 e1 H) as [E N].
    exists Done, db1. repeat split; auto.
Qed.

Lemma reingestion_no_duplicates_witness :
  exists db1,
    attempt (ChunkDocument (Some 6) None) 5 words_fs (mkSettings 1000 0) 1
            (sample_db "txt") = Some (Done, db1) /\
    List.map dc_content (chunks_of 1 db1)
      = [of_string "hello"; of_string "world"] /\
    indices_of 1 db1 = [0; 1] /\
    exists e2 db2,
      attempt (ChunkDocument (Some 6) None) 5 words_fs (mkSettings 1000 0) 1 db1
        = Some (e2, db2) /\
      chunks_of 1 db2 = chunks_of 1 db1 /\
      List.map dc_content (chunks_of 1 db2)
        = List.map dc_content (chunks_of 1 db1) /\
      NoDup (indices_of 1 db1) /\ NoDup (indices_of 1 db2).
Proof.
  eexists. split; [vm_compute; reflexivity|].
  split; [vm_compute; reflexivity|]. split; [vm_compute; reflexivity|].
  apply (reingestion_no_duplicates (ChunkDocument (Some 6) None) 5 words_fs
           (mkSettings 1000 0) 1%N (sample_db "txt") _ Done).
  - constructor.
  - vm_compute. reflexivity.
Defined.

(** The saving loop itself has no guard: run twice on the same chunks it
    stores every index twice. *)
Example save_chunks_twice_repeats_indices :
  indices_of 1
    (save_chunks 1 0 [of_string "hello"; of_string "world"] []
       (save_chunks 1 0 [of_string "hello"; of_string "world"] []
          (sample_db "txt")))
  = [0; 1; 0; 1].
Proof. vm_compute. reflexivity. Qed.

End IngestionFacts.

(** ** What the chunker keeps of the text *)

Module CoverageFacts.
Import Py PyFacts Text Chunker ChunkerFacts.

Lemma squeeze_app (a b : str) : squeeze (a ++ b) = squeeze a ++ squeeze b.
Proof. unfold squeeze. apply filter_app. Qed.

Lemma squeeze_lstrip (s : str) : squeeze (lstrip s) = squeeze s.
Proof.
  induction s as [|c r IH]; [reflexivity|].
  cbn [lstrip]. destruct (isspace c) eqn:E; [|reflexivity].
  rewrite IH. unfold squeeze. cbn [filter]. now rewrite E.
Qed.

Lemma squeeze_rev (s : str) : squeeze (rev s) = rev (squeeze s).
Proof. unfold squeeze. apply filter_rev. Qed.

(** Stripping removes whitespace only. *)
Lemma squeeze_strip (s : str) : squeeze (strip s) = squeeze s.
Proof.
  unfold strip, rstrip.
  rewrite squeeze_rev, squeeze_lstrip, squeeze_rev, rev_involutive.
  apply squeeze_lstrip.
Qed.

Lemma firstn_split {A : Type} (p : nat) :
  forall (q : nat) (s : list A),
    (p <= q)%nat -> firstn q s = firstn p s ++ firstn (q - p) (skipn p s).
Proof.
  induction p as [|k IH]; intros q s H.
  - cbn. now rewrite Nat.sub_0_r.
  - destruct q as [|q']; [lia|]. destruct s as [|x r].
    + cbn. now rewrite firstn_nil.
    + cbn. f_equal. apply IH. lia.
Qed.

(** A prefix ending at [b] is the prefix ending at [a] followed by the
    slice from [a] to [b]. *)
Lemma slice_to_split {A : Type} (s : list A) (a b : Z) :
  0 <= a <= b -> slice_to s b = slice_to s a ++ slice s a b.
Proof.
  intros H. unfold slice_to, slice. pose proof (len_nonneg s) as Hn.
  rewrite !adjust_nonneg_arg by lia.
  rewrite (Z.min_l 0) by lia. cbn [Z.to_nat skipn]. rewrite !Z.sub_0_r.
  rewrite (firstn_split (Z.to_nat (Z.min a (len s)))
                        (Z.to_nat (Z.min b (len s)))) by lia.
  do 2 f_equal. lia.
Qed.

(** With no overlap the next window starts where the last one ended. *)
Lemma chunk_step_no_overlap (text : str) (cs : Z) (st : loop_state) :
  0 < cs -> 0 <= st_start st ->
  st_start (chunk_step text cs 0 st) = window_end text cs (st_start st).
Proof.
  intros Hcs Hst. pose proof (window_end_bounds text cs _ Hcs Hst).
  unfold chunk_step. cbn [st_start]. rewrite Z.sub_0_r.
  destruct (_ <=? 0) eqn:E; reflexivity.
Qed.

Lemma concat_map_snoc {A B : Type} (f : A -> list B) (l : list A) (x : A) :
  List.concat (List.map f (l ++ [x])) = List.concat (List.map f l) ++ f x.
Proof. rewrite map_app, concat_app. cbn. now rewrite app_nil_r. Qed.

(** The loop invariant of the coverage: the chunks collected so far hold
    the non-whitespace characters of the text before [start]. *)
Lemma chunk_step_covers (text : str) (cs : Z) (st : loop_state) :
  0 < cs ->
  0 <= st_start st /\
  List.concat (List.map squeeze (st_chunks st))
    = squeeze (slice_to text (st_start st)) ->
  0 <= st_start (chunk_step text cs 0 st) /\
  List.concat (List.map squeeze (st_chunks (chunk_step text cs 0 st)))
    = squeeze (slice_to text (st_start (chunk_step text cs 0 st))).
Proof.
  intros Hcs [Hst Hc].
  pose proof (window_end_bounds text cs _ Hcs Hst) as Hw.
  rewrite chunk_step_no_overlap by assumption. split; [lia|].
  rewrite chunk_step_chunks. cbv zeta.
  rewrite (slice_to_split text (st_start st)) by lia.
  rewrite squeeze_app, <- Hc.
  set (w := slice text (st_start st) (window_end text cs (st_start st))).
  destruct (strip w) as [|c r] eqn:E; cbn [truthy].
  - rewrite <- (squeeze_strip w), E. cbn. now rewrite app_nil_r.
  - rewrite (concat_map_snoc squeeze). f_equal. rewrite <- E.
    apply squeeze_strip.
Qed.

(** Coverage without overlap: for [chunk_size > 0] and [overlap = 0] the
    returned chunks hold, in order, exactly the non-whitespace characters of
    the text: none is lost, none is repeated. *)
Theorem chunks_cover_text (fuel : nat) (text : str) (cs : Z) (l : list str) :
  0 < cs ->
  create_document_chunks fuel text cs 0 = Some l ->
  List.concat (List.map squeeze l) = squeeze text.
Proof.
  intros Hcs. unfold create_document_chunks, chunk_loop.
  destruct text as [|c r]; [intros [= <-]; reflexivity|].
  cbn [truthy negb].
  set (text := c :: r).
  assert (H : 0 <= st_start (run_loop fuel text cs 0 initial) /\
              List.concat (List.map squeeze
                               (st_chunks (run_loop fuel text cs 0 initial)))
              = squeeze (slice_to text
                                  (st_start (run_loop fuel text cs 0 initial)))).
  { apply (run_loop_invariant
             (fun st => 0 <= st_start st /\
                        List.concat (List.map squeeze (st_chunks st))
                        = squeeze (slice_to text (st_start st)))).
    - intros st. now apply chunk_step_covers.
    - split; [cbn; lia | reflexivity]. }
  destruct (loop_cond text _) eqn:C; [discriminate|].
  intros [= <-]. destruct H as [_ ->].
  unfold loop_cond in C. apply Z.ltb_ge in C.
  unfold slice_to. now rewrite slice_all.
Qed.

Lemma chunks_cover_text_witness :
  List.concat (List.map squeeze
                   (List.map of_string ["The quick"; "brown fox"; "jumps"]%string))
  = squeeze (of_string "The quick brown fox jumps").
Proof.
  apply (chunks_cover_text 3 (of_string "The quick brown fox jumps") 10);
    [lia | reflexivity].
Defined.

Lemma infix_slice {A : Type} (s : list A) (i j : Z) :
  exists pre post, s = pre ++ slice s i j ++ post.
Proof.
  unfold slice.
  set (lo := Z.to_nat (adjust (len s) i)).
  set (k := Z.to_nat (adjust (len s) j - adjust (len s) i)).
  exists (firstn lo s), (skipn k (skipn lo s)).
  now rewrite (firstn_skipn k), (firstn_skipn lo).
Qed.

Lemma infix_strip (c s : str) : infix c s -> infix (strip c) s.
Proof.
  intros [pre [post ->]]. unfold strip.
  destruct (lstrip_suffix c) as [p Hp].
  destruct (rstrip_prefix (lstrip c)) as [q Hq].
  exists (pre ++ p), (q ++ post).
  rewrite Hp at 1. rewrite Hq at 1. now rewrite <- !app_assoc.
Qed.

Lemma chunk_step_infix (text : str) (cs ov : Z) (st : loop_state) :
  Forall (fun c => infix c text) (st_chunks st) ->
  Forall (fun c => infix c text) (st_chunks (chunk_step text cs ov st)).
Proof.
  intros H. rewrite chunk_step_chunks. cbv zeta.
  destruct (truthy _); [|exact H].
  apply Forall_app. split; [exact H|]. constructor; [|constructor].
  apply infix_strip. apply infix_slice.
Qed.

(** Every chunk is a piece of the text: a run of consecutive characters of
    the document, for any [chunk_size] and [overlap], after any number of
    iterations and in the returned list. *)
Theorem chunks_are_substrings (text : str) (cs ov : Z) :
  (forall n, Forall (fun c => infix c text)
                    (st_chunks (run_loop n text cs ov initial))) /\
  (forall fuel l, create_document_chunks fuel text cs ov = Some l ->
                  Forall (fun c => infix c text) l).
Proof.
  assert (H : forall n, Forall (fun c => infix c text)
                               (st_chunks (run_loop n text cs ov initial))).
  { intros n.
    apply (run_loop_invariant
             (fun st => Forall (fun c => infix c text) (st_chunks st))).
    - intros st. apply chunk_step_infix.
    - constructor. }
  split; [exact H|]. intros fuel l Hl.
  destruct (create_document_chunks_result _ _ _ _ _ Hl) as [-> | ->];
    [constructor | apply H].
Qed.

End CoverageFacts.

(** ** Order and shape of sorted, fused and optimized results *)

Module ResultFacts.
Import Py PyFacts Search Rag Fusion FusionShape RagFacts FusionFacts.

Lemma insert_desc_perm {A : Type} (key : A -> float) (x : A) (l : list A) :
  Permutation (insert_desc key x l) (x :: l).
Proof.
  induction l as [|y r IH]; cbn [insert_desc]; [reflexivity|].
  destruct (PrimFloat.ltb (key x) (key y)); [|reflexivity].
  rewrite IH. apply perm_swap.
Qed.

(** Sorting rearranges: it neither drops nor repeats an element. *)
Lemma sorted_desc_perm {A : Type} (key : A -> float) (l : list A) :
  Permutation (sorted_desc key l) l.
Proof.
  induction l as [|x r IH]; cbn; [reflexivity|].
  fold (sorted_desc key r). rewrite insert_desc_perm. now constructor.
Qed.

Lemma total_content_length_perm (l l' : list SearchResult) :
  Permutation l l' -> total_content_length l = total_content_length l'.
Proof.
  induction 1 as [|x l l' _ IH|x y l|l l' l'' _ IH1 _ IH2]; cbn.
  - reflexivity.
  - fold (total_content_length l). fold (total_content_length l'). lia.
  - fold (total_content_length l). lia.
  - congruence.
Qed.

Lemma total_content_length_nonneg (l : list SearchResult) :
  0 <= total_content_length l.
Proof.
  induction l as [|r l IH]; cbn; [lia|].
  fold (total_content_length l). pose proof (len_nonneg (content r)). lia.
Qed.

(** The loop keeps a prefix [kept] of the sorted context for as long as the
    next result fits; at the first one that does not, it stops, adding a cut
    copy when more than 100 characters of budget remain. *)
Lemma optimize_loop_greedy (max_len : Z) (sorted : list SearchResult) :
  forall total acc,
    total = total_content_length acc -> total <= max_len ->
    exists kept rest,
      sorted = kept ++ rest /\
      total_content_length (acc ++ kept) <= max_len /\
      match rest with
      | [] => optimize_loop max_len sorted total acc = acc ++ kept
      | r :: _ =>
          max_len < total_content_length (acc ++ kept) + len (content r) /\
          optimize_loop max_len sorted total acc =
          (acc ++ kept) ++
          (if max_len - total_content_length (acc ++ kept) >? 100
           then [with_content r
                   (slice_to (content r)
                             (max_len - total_content_length (acc ++ kept))
                    ++ of_string "...")]
           else [])
      end.
Proof.
  induction sorted as [|r rest IH]; intros total acc Ht Hle.
  - exists [], []. rewrite !app_nil_r. subst total.
    split; [reflexivity|]. split; [lia | reflexivity].
  - cbn [optimize_loop]. cbv zeta.
    destruct (total + len (content r) <=? max_len) eqn:E.
    + destruct (IH (total + len (content r)) (acc ++ [r]))
        as [kept [rest' (Hs & Hk & Hr)]].
      * rewrite total_content_length_app. cbn. lia.
      * lia.
      * exists (r :: kept), rest'. rewrite <- app_assoc in Hk, Hr.
        cbn [app] in Hk, Hr. split; [now rewrite Hs|]. split; [exact Hk|].
        exact Hr.
    + exists [], (r :: rest). rewrite app_nil_r. subst total.
      repeat split; try lia.
      destruct (_ >? 100); [reflexivity | now rewrite app_nil_r].
Qed.

(** The optimizer is greedy on the sorted context: it returns the longest
    prefix of the results, taken by descending score, whose contents fit the
    budget together, followed, when a result is left over and more than 100
    characters remain, by a copy of the next result cut to the remaining
    budget with "..." appended. *)
Theorem optimize_context_greedy (query : str) (context : list SearchResult)
        (max_len : Z) :
  0 <= max_len ->
  exists kept rest,
    sorted_desc similarity_score context = kept ++ rest /\
    total_content_length kept <= max_len /\
    match rest with
    | [] => optimize_context query context max_len = kept
    | r :: _ =>
        max_len < total_content_length kept + len (content r) /\
        optimize_context query context max_len =
        kept ++
        (if max_len - total_content_length kept >? 100
         then [with_content r
                 (slice_to (content r) (max_len - total_content_length kept)
                  ++ of_string "...")]
         else [])
    end.
Proof.
  intros H. unfold optimize_context.
  destruct context as [|c cs]; cbn [truthy negb].
  - exists [], []. cbn. repeat split. lia.
  - apply (optimize_loop_greedy max_len _ 0 []); [reflexivity | lia].
Qed.

Lemma optimize_context_greedy_witness :
  exists kept rest,
    sorted_desc similarity_score [long_result] = kept ++ rest /\
    total_content_length kept <= 1000 /\
    match rest with
    | [] => optimize_context (of_string "q") [long_result] 1000 = kept
    | r :: _ =>
        1000 < total_content_length kept + len (content r) /\
        optimize_context (of_string "q") [long_result] 1000 =
        kept ++
        (if 1000 - total_content_length kept >? 100
         then [with_content r
                 (slice_to (content r) (1000 - total_content_length kept)
                  ++ of_string "...")]
         else [])
    end.
Proof.
  apply (optimize_context_greedy (of_string "q") [long_result] 1000). lia.
Defined.

(** When all contents fit the budget together, nothing is dropped or cut:
    the optimizer returns the whole context, sorted by descending score. *)
Theorem optimize_context_keeps_all (query : str)
        (context : list SearchResult) (max_len : Z) :
  total_content_length context <= max_len ->
  optimize_context query context max_len
    = sorted_desc similarity_score context /\
  Permutation (optimize_context query context max_len) context.
Proof.
  intros H.
  assert (E : optimize_context query context max_len
              = sorted_desc similarity_score context).
  { pose proof (total_content_length_nonneg context) as Hn.
    unfold optimize_context.
    destruct (negb (truthy context)) eqn:T;
      [destruct context; [reflexivity | discriminate]|].
    destruct (optimize_loop_greedy
                max_len (sorted_desc similarity_score context) 0 [])
      as [kept [rest (Hs & Hk & Hr)]]; [reflexivity | lia |].
    cbn [app] in Hk, Hr.
    destruct rest as [|r rest'].
    - now rewrite Hr, Hs, app_nil_r.
    - destruct Hr as [Hr _].
      pose proof (total_content_length_perm _ _
                    (sorted_desc_perm similarity_score context)) as Hp.
      rewrite Hs, total_content_length_app in Hp. cbn in Hp.
      fold (total_content_length rest') in Hp.
      pose proof (total_content_length_nonneg rest'). lia. }
  split; [exact E|]. rewrite E. apply sorted_desc_perm.
Qed.

Lemma optimize_context_keeps_all_witness :
  optimize_context (of_string "q") [result_b; result_a] 2
    = sorted_desc similarity_score [result_b; result_a] /\
  Permutation (optimize_context (of_string "q") [result_b; result_a] 2)
              [result_b; result_a].
Proof.
  apply (optimize_context_keeps_all (of_string "q") [result_b; result_a] 2).
  vm_compute. discriminate.
Defined.

(** *** The fused list *)

Lemma dict_set_keys (k : UUID) (v : combined) (d : dict) (x : UUID) :
  In x (List.map fst (dict_set k v d)) -> x = k \/ In x (List.map fst d).
Proof.
  induction d as [|[k' v'] r IH]; cbn.
  - intros [<- | []]. now left.
  - destruct (N.eqb k' k) eqn:E; cbn.
    + apply N.eqb_eq in E. subst k'. intros [<- | H]; [now left | right; now right].
    + intros [<- | H]; [right; now left|].
      destruct (IH H) as [-> | H']; [now left | right; now right].
Qed.

Lemma dict_set_entries (k : UUID) (v : combined) (d : dict)
      (p : UUID * combined) :
  In p (dict_set k v d) -> p = (k, v) \/ In p d.
Proof.
  induction d as [|[k' v'] r IH]; cbn.
  - intros [<- | []]. now left.
  - destruct (N.eqb k' k); cbn.
    + intros [<- | H]; [now left | right; now right].
    + intros [<- | H]; [right; now left|].
      destruct (IH H) as [-> | H']; [now left | right; now right].
Qed.

Lemma dict_set_NoDup (k : UUID) (v : combined) (d : dict) :
  NoDup (List.map fst d) -> NoDup (List.map fst (dict_set k v d)).
Proof.
  induction d as [|[k' v'] r IH]; cbn; intros H.
  - constructor; [easy | constructor].
  - inversion H as [|? ? Hn Hr]; subst.
    destruct (N.eqb k' k) eqn:E; cbn.
    + apply N.eqb_eq in E. subst k'. now constructor.
    + constructor; [|now apply IH].
      intros Hin. apply dict_set_keys in Hin. destruct Hin as [-> | Hin].
      * rewrite N.eqb_refl in E. discriminate.
      * contradiction.
Qed.

Lemma dict_get_In (k : UUID) (d : dict) (e : combined) :
  dict_get k d = Some e -> In (k, e) d.
Proof.
  induction d as [|[k' v'] r IH]; cbn; [discriminate|].
  destruct (N.eqb k' k) eqn:E.
  - apply N.eqb_eq in E. subst k'. intros [= ->]. now left.
  - intros H. right. now apply IH.
Qed.

(** A well-formed dictionary: every key occurs once, names the chunk of its
    entry, and every entry's result comes from one of the two lists. *)
Lemma add_semantic_keeps (sem vec : list SearchResult) (w : float)
      (d : dict) (r : SearchResult) :
  In r sem -> well_formed sem vec d -> well_formed sem vec (add_semantic w d r).
Proof.
  intros Hr [Hn Hf]. unfold add_semantic. split.
  - now apply dict_set_NoDup.
  - apply Forall_forall. intros p Hp.
    apply dict_set_entries in Hp. destruct Hp as [-> | Hp].
    + cbn. split; [reflexivity | now left].
    + now apply (proj1 (Forall_forall _ _) Hf).
Qed.

Lemma add_vector_keeps (sem vec : list SearchResult) (w : float)
      (d : dict) (r : SearchResult) :
  In r vec -> well_formed sem vec d -> well_formed sem vec (add_vector w d r).
Proof.
  intros Hr [Hn Hf]. unfold add_vector.
  destruct (dict_get (chunk_id r) d) as [e|] eqn:G; split;
    try now apply dict_set_NoDup.
  - apply Forall_forall. intros p Hp.
    apply dict_set_entries in Hp. destruct Hp as [-> | Hp].
    + apply dict_get_In in G.
      apply (proj1 (Forall_forall _ _) Hf) in G. exact G.
    + now apply (proj1 (Forall_forall _ _) Hf).
  - apply Forall_forall. intros p Hp.
    apply dict_set_entries in Hp. destruct Hp as [-> | Hp].
    + cbn. split; [reflexivity | now right].
    + now apply (proj1 (Forall_forall _ _) Hf).
Qed.

Lemma fold_keeps {A : Type} (P : dict -> Prop) (f : dict -> A -> dict)
      (l : list A) :
  (forall d x, In x l -> P d -> P (f d x)) ->
  forall d, P d -> P (fold_left f l d).
Proof.
  induction l as [|x r IH]; intros Hf d Hd; cbn; [exact Hd|].
  apply IH.
  - intros d' y Hy. apply Hf. now right.
  - apply Hf; [now left | exact Hd].
Qed.

Lemma combined_dict_well_formed (sem vec : list SearchResult) (ws wv : float) :
  well_formed sem vec (combined_dict sem vec ws wv).
Proof.
  unfold combined_dict.
  apply fold_keeps; [intros d x Hx; now apply add_vector_keeps|].
  apply fold_keeps; [intros d x Hx; now apply add_semantic_keeps|].
  split; constructor.
Qed.

Lemma NoDup_firstn {A : Type} (n : nat) (l : list A) :
  NoDup l -> NoDup (firstn n l).
Proof.
  intros H. rewrite <- (firstn_skipn n l) in H.
  now apply NoDup_app_remove_r in H.
Qed.

Lemma In_firstn {A : Type} (n : nat) (l : list A) (x : A) :
  In x (firstn n l) -> In x l.
Proof.
  intros H. rewrite <- (firstn_skipn n l). apply in_or_app. now left.
Qed.

Lemma slice_to_firstn {A : Type} (s : list A) (j : Z) :
  exists n, slice_to s j = firstn n s.
Proof.
  unfold slice_to, slice. rewrite (adjust_nonneg_arg _ 0) by lia.
  pose proof (len_nonneg s). rewrite (Z.min_l 0) by lia.
  cbn [Z.to_nat skipn]. now eexists.
Qed.

Lemma well_formed_ids (sem vec : list SearchResult) (d : dict) :
  well_formed sem vec d ->
  List.map (fun e => chunk_id (result e)) (dict_values d) = List.map fst d.
Proof.
  intros [_ Hf]. unfold dict_values. rewrite map_map.
  apply map_ext_in. intros [k e] Hin.
  apply (proj1 (Forall_forall _ _) Hf) in Hin. cbn in *. tauto.
Qed.

(** The fused list names every chunk at most once, holds only results that
    were given in one of the two lists, and is no longer than [limit] (for
    [limit >= 0]) nor than the two lists together. *)
Theorem combined_results_distinct
        (semantic_results vector_results : list SearchResult)
        (semantic_weight vector_weight : float) (limit : Z) :
  let out := _combine_search_results semantic_results vector_results
                                     semantic_weight vector_weight limit in
  NoDup (List.map chunk_id out) /\
  (forall r, In r out -> In r semantic_results \/ In r vector_results) /\
  (0 <= limit -> len out <= limit).
Proof.
  cbv zeta. unfold _combine_search_results.
  set (d := combined_dict semantic_results vector_results
                          semantic_weight vector_weight).
  pose proof (combined_dict_well_formed semantic_results vector_results
                semantic_weight vector_weight) as Hw. fold d in Hw.
  destruct (slice_to_firstn (sorted_desc combined_score (dict_values d)) limit)
    as [n Hn].
  split; [|split].
  - rewrite Hn, map_map, <- firstn_map. apply NoDup_firstn.
    apply (Permutation_NoDup
             (l := List.map (fun e => chunk_id (result e)) (dict_values d))).
    + apply Permutation_map. symmetry. apply sorted_desc_perm.
    + rewrite (well_formed_ids _ _ _ Hw). apply Hw.
  - intros r Hr. apply in_map_iff in Hr. destruct Hr as [e [<- He]].
    rewrite Hn in He. apply In_firstn in He.
    apply (Permutation_in _ (sorted_desc_perm combined_score _)) in He.
    unfold dict_values in He. apply in_map_iff in He.
    destruct He as [[k e'] [<- Hin]].
    destruct Hw as [_ Hf].
    apply (proj1 (Forall_forall _ _) Hf) in Hin. cbn in *. tauto.
  - intros Hl. unfold len. rewrite length_map.
    apply (len_slice_to (sorted_desc combined_score (dict_values d)) limit Hl).
Qed.

End ResultFacts.

(** ** The document service *)

Module StoreFacts.
Import Py PyFacts Search Store Chunker ChunkerFacts Ingestion IngestionFacts.
Import Maintenance.

Lemma insert_by_index_perm (c : DocumentChunk) (l : list DocumentChunk) :
  Permutation (insert_by_index c l) (c :: l).
Proof.
  induction l as [|y r IH]; cbn [insert_by_index]; [reflexivity|].
  destruct (dc_chunk_index c <? dc_chunk_index y); [reflexivity|].
  rewrite IH. apply perm_swap.
Qed.

Lemma insert_by_index_head (y c : DocumentChunk) (r : list DocumentChunk) :
  HdRel by_index y r -> by_index y c -> HdRel by_index y (insert_by_index c r).
Proof.
  intros Hr Hc. destruct r as [|z r']; cbn [insert_by_index].
  - now constructor.
  - destruct (dc_chunk_index c <? dc_chunk_index z); constructor;
      [exact Hc | now inversion Hr].
Qed.

Lemma insert_by_index_sorted (c : DocumentChunk) (l : list DocumentChunk) :
  Sorted by_index l -> Sorted by_index (insert_by_index c l).
Proof.
  induction l as [|y r IH]; intros H; cbn [insert_by_index].
  - repeat constructor.
  - inversion H as [|? ? Hs Hh]; subst.
    destruct (dc_chunk_index c <? dc_chunk_index y) eqn:E.
    + constructor; [exact H|]. constructor. unfold by_index.
      apply Z.ltb_lt in E. lia.
    + constructor; [now apply IH|].
      apply insert_by_index_head; [exact Hh|].
      unfold by_index. apply Z.ltb_ge in E. exact E.
Qed.

(** Reading a document's chunks returns exactly its rows, each once, in
    ascending index order. *)
Theorem get_document_chunks_sorted (id : UUID) (db : database) :
  Sorted by_index (get_document_chunks id db) /\
  Permutation (get_document_chunks id db) (chunks_of id db) /\
  Forall (fun c => dc_document_id c = id) (get_document_chunks id db).
Proof.
  unfold get_document_chunks.
  assert (P : forall l, Permutation (fold_right insert_by_index [] l) l).
  { induction l as [|c r IH]; cbn; [reflexivity|].
    rewrite insert_by_index_perm. now constructor. }
  split; [|split].
  - induction (chunks_of id db) as [|c r IH]; cbn; [constructor|].
    now apply insert_by_index_sorted.
  - apply P.
  - apply Forall_forall. intros c Hc.
    apply (Permutation_in _ (P _)) in Hc. unfold chunks_of in Hc.
    apply filter_In in Hc. now apply N.eqb_eq.
Qed.

Lemma save_chunks_new_rows (id : UUID) (extra : list (string * Z))
      (texts : list str) :
  forall i db,
    save_chunks id i texts extra db =
    mkDatabase (documents db)
               (chunks db ++ new_rows id i texts (next_id db))
               (N.of_nat (List.length texts) + next_id db)%N.
Proof.
  induction texts as [|t rest IH]; intros i db; cbn [save_chunks new_rows].
  - rewrite app_nil_r. now destruct db.
  - rewrite IH. cbn [create_document_chunk documents chunks next_id].
    rewrite <- app_assoc. cbn [app List.length]. f_equal. lia.
Qed.

Lemma new_rows_facts (id : UUID) (texts : list str) :
  forall i next,
    List.map dc_content (new_rows id i texts next) = texts /\
    List.map dc_chunk_index (new_rows id i texts next)
      = count_from i (List.length texts) /\
    Forall (fun c => dc_document_id c = id /\
                     dc_document_metadata c = None /\
                     dc_embedding c = None)
           (new_rows id i texts next).
Proof.
  induction texts as [|t rest IH]; intros i next; cbn [new_rows];
    [repeat split; constructor|].
  destruct (IH (i + 1) (N.succ next)) as (Hc & Hi & Hf).
  cbn [List.map List.length count_from]. rewrite Hc, Hi.
  repeat split. constructor; [|exact Hf].
  cbn. repeat split.
Qed.

(** Rows with consecutive indices are already in index order. *)
Lemma sort_consecutive (rows : list DocumentChunk) :
  forall i,
    List.map dc_chunk_index rows = count_from i (List.length rows) ->
    fold_right insert_by_index [] rows = rows.
Proof.
  induction rows as [|x r IH]; intros i H; [reflexivity|].
  cbn in H. injection H as Hx Hr.
  cbn [fold_right]. rewrite (IH (i + 1) Hr).
  destruct r as [|y r']; [reflexivity|].
  cbn in Hr. injection Hr as Hy _.
  cbn [insert_by_index].
  replace (dc_chunk_index x <? dc_chunk_index y) with true; [reflexivity|].
  symmetry. apply Z.ltb_lt. lia.
Qed.

(** Chunking a document that has no chunks yet: when the text is extracted
    and the chunker returns, [chunk_document] stores one row per chunk, and
    reading them back gives the chunker's texts in order, with the indices
    0, 1, ..., each row carrying no embedding and no metadata (the
    [chunk_size] and [overlap] the task passes along are not stored); the
    documents table (and so the status) is left as it was. *)
Theorem chunk_document_stores_chunks (fuel : nat) (fs : filesystem)
        (st : settings) (id : UUID) (cs ov : option Z) (db : database)
        (d : Document) (c : char) (r : str) (texts : list str) :
  get_document id db = Some d ->
  chunks_of id db = [] ->
  extract_text_from_document fs d = Some (c :: r) ->
  create_document_chunks fuel (c :: r) (or_default cs (CHUNK_SIZE st))
                         (or_default ov (CHUNK_OVERLAP st)) = Some texts ->
  exists db1,
    chunk_document fuel fs st id cs ov db = Some (Done, db1) /\
    List.map dc_content (get_document_chunks id db1) = texts /\
    List.map dc_chunk_index (get_document_chunks id db1)
      = count_from 0 (List.length texts) /\
    Forall (fun row => dc_document_metadata row = None /\
                       dc_embedding row = None)
           (get_document_chunks id db1) /\
    documents db1 = documents db.
Proof.
  intros Hd He Hx Hc.
  set (extra := [("overlap"%string, or_default ov (CHUNK_OVERLAP st))]).
  exists (save_chunks id 0 texts extra db).
  destruct (new_rows_facts id texts 0 (next_id db)) as (Rc & Ri & Rf).
  assert (Hrows : get_document_chunks id (save_chunks id 0 texts extra db)
                  = new_rows id 0 texts (next_id db)).
  { unfold get_document_chunks, chunks_of.
    rewrite save_chunks_new_rows. cbn [chunks].
    unfold chunks_of in He. rewrite filter_app, He. cbn [app].
    rewrite filter_all.
    - apply (sort_consecutive _ 0). rewrite Ri. f_equal.
      pose proof (f_equal (@List.length _) Rc) as L.
      rewrite length_map in L. now rewrite L.
    - eapply Forall_impl; [|exact Rf]. intros row (-> & _). apply N.eqb_refl. }
  split; [|split; [|split; [|split]]].
  - unfold chunk_document. rewrite Hd, truthy_get_document_chunks, He, Hx.
    cbn [truthy]. fold extra. now rewrite Hc.
  - now rewrite Hrows.
  - now rewrite Hrows.
  - rewrite Hrows. eapply Forall_impl; [|exact Rf]. cbn. tauto.
  - now rewrite save_chunks_new_rows.
Qed.

Lemma chunk_document_stores_chunks_witness :
  exists db1,
    chunk_document 5 words_fs (mkSettings 1000 0) 1 (Some 6) None
                   (sample_db "txt") = Some (Done, db1) /\
    List.map dc_content (get_document_chunks 1 db1)
      = [of_string "hello"; of_string "world"] /\
    List.map dc_chunk_index (get_document_chunks 1 db1) = count_from 0 2 /\
    Forall (fun row => dc_document_metadata row = None /\
                       dc_embedding row = None)
           (get_document_chunks 1 db1) /\
    documents db1 = documents (sample_db "txt").
Proof.
  apply (chunk_document_stores_chunks
           5 words_fs (mkSettings 1000 0) 1%N (Some 6) None (sample_db "txt")
           (mkDocument 1 9 (of_string "report") (of_string "/uploads/report")
                       120 (of_string "txt") "pending")
           104%N (of_string "ello world")
           [of_string "hello"; of_string "world"]);
    reflexivity.
Defined.

Lemma get_document_other (id id' : UUID) (s : string) (db : database) :
  id' <> id ->
  get_document id' (update_document_status id s db) = get_document id' db.
Proof.
  intros Hne. unfold get_document, update_document_status. cbn [documents].
  induction (documents db) as [|x l IH]; [reflexivity|].
  cbn [List.map find]. destruct (N.eqb (doc_id x) id) eqn:E.
  - apply N.eqb_eq in E. cbn [set_status doc_id].
    replace (N.eqb (doc_id x) id') with false; [exact IH|].
    symmetry. apply N.eqb_neq. congruence.
  - destruct (N.eqb (doc_id x) id'); [reflexivity | exact IH].
Qed.

Lemma find_none_map_id {A : Type} (p : A -> bool) (f : A -> A) (l : list A) :
  find p l = None -> List.map (fun x => if p x then f x else x) l = l.
Proof.
  induction l as [|x r IH]; [reflexivity|]. cbn.
  destruct (p x); [discriminate|]. intros H. now rewrite IH.
Qed.

(** Updating a status: the document then reads back with the new status
    and is otherwise the same; every other document and the chunk table are
    untouched; and for an unknown identifier the store does not change. *)
Theorem update_document_status_lookup (id id' : UUID) (s : string)
        (db : database) :
  get_document id (update_document_status id s db)
    = option_map (set_status s) (get_document id db) /\
  (id' <> id ->
   get_document id' (update_document_status id s db) = get_document id' db) /\
  chunks (update_document_status id s db) = chunks db /\
  (get_document id db = None -> update_document_status id s db = db).
Proof.
  split; [|split; [|split]].
  - destruct (get_document id db) as [d|] eqn:E.
    + now apply get_document_updated.
    + unfold get_document, update_document_status in *. cbn [documents].
      now rewrite (find_none_map_id _ (set_status s) _ E).
  - apply get_document_other.
  - reflexivity.
  - intros E. unfold get_document, update_document_status in *.
    rewrite (find_none_map_id _ (set_status s) _ E). now destruct db.
Qed.

(** The extraction comes back without text in exactly three cases: the file
    is missing, the type is none of txt, pdf, docx and doc (compared in lower
    case), or the file is a text file that is empty or does not decode. An
    existing pdf, docx or doc file always yields (placeholder) text. *)
Theorem extraction_without_text_iff (fs : filesystem) (d : Document) :
  no_text (extract_text_from_document fs d) = true <->
  fs (file_path d) = None \/
  (str_eqb (lower (file_type d)) (of_string "txt") = false /\
   str_eqb (lower (file_type d)) (of_string "pdf") = false /\
   str_eqb (lower (file_type d)) (of_string "docx") = false /\
   str_eqb (lower (file_type d)) (of_string "doc") = false) \/
  (str_eqb (lower (file_type d)) (of_string "txt") = true /\
   (fs (file_path d) = Some Undecodable \/ fs (file_path d) = Some (Text []))).
Proof.
  split; [|apply extraction_failures].
  unfold extract_text_from_document, extract_text_from_txt.
  destruct (fs (file_path d)) as [f|]; [|now left].
  destruct (str_eqb (lower (file_type d)) (of_string "txt")) eqn:T.
  - destruct f as [[|c r]|]; cbn; intros H; try discriminate;
      right; right; split; auto.
  - destruct (str_eqb (lower (file_type d)) (of_string "pdf")) eqn:P;
      [cbn; discriminate|].
    destruct (str_eqb (lower (file_type d)) (of_string "docx")) eqn:X;
      [cbn; discriminate|].
    destruct (str_eqb (lower (file_type d)) (of_string "doc")) eqn:D;
      [cbn; discriminate|].
    intros _. right. left. repeat split.
Qed.

End StoreFacts.

(** ** Deleting documents and attaching embeddings *)

Module MaintenanceFacts.
Import Py PyFacts Search Store Ingestion IngestionFacts Maintenance.

Lemma str_eqb_refl (a : str) : str_eqb a a = true.
Proof. induction a as [|x r IH]; cbn; [reflexivity|]. now rewrite N.eqb_refl. Qed.

Lemma str_eqb_eq (a b : str) : str_eqb a b = true -> a = b.
Proof.
  revert b. induction a as [|x r IH]; intros [|y s]; cbn; try discriminate;
    [reflexivity|].
  intros H. apply andb_prop in H. destruct H as [H1 H2].
  apply N.eqb_eq in H1. subst y. f_equal. now apply IH.
Qed.

Lemma find_filter_same {A : Type} (key : A -> UUID) (id : UUID) (l : list A) :
  find (fun x => N.eqb (key x) id)
       (filter (fun x => negb (N.eqb (key x) id)) l) = None.
Proof.
  induction l as [|x r IH]; [reflexivity|]. cbn.
  destruct (N.eqb (key x) id) eqn:E; cbn; [exact IH | now rewrite E].
Qed.

Lemma find_filter_other {A : Type} (key : A -> UUID) (id id' : UUID)
      (l : list A) :
  id' <> id ->
  find (fun x => N.eqb (key x) id')
       (filter (fun x => negb (N.eqb (key x) id)) l)
  = find (fun x => N.eqb (key x) id') l.
Proof.
  intros Hne. induction l as [|x r IH]; [reflexivity|]. cbn.
  destruct (N.eqb (key x) id) eqn:E; cbn.
  - apply N.eqb_eq in E.
    replace (N.eqb (key x) id') with false; [exact IH|].
    symmetry. apply N.eqb_neq. congruence.
  - destruct (N.eqb (key x) id'); [reflexivity | exact IH].
Qed.

Lemma filter_filter_same {A : Type} (key : A -> UUID) (id : UUID)
      (l : list A) :
  filter (fun x => N.eqb (key x) id)
         (filter (fun x => negb (N.eqb (key x) id)) l) = [].
Proof.
  induction l as [|x r IH]; [reflexivity|]. cbn.
  destruct (N.eqb (key x) id) eqn:E; cbn; [exact IH | now rewrite E].
Qed.

Lemma filter_filter_other {A : Type} (key : A -> UUID) (id id' : UUID)
      (l : list A) :
  id' <> id ->
  filter (fun x => N.eqb (key x) id')
         (filter (fun x => negb (N.eqb (key x) id)) l)
  = filter (fun x => N.eqb (key x) id') l.
Proof.
  intros Hne. induction l as [|x r IH]; [reflexivity|]. cbn.
  destruct (N.eqb (key x) id) eqn:E; cbn.
  - apply N.eqb_eq in E.
    replace (N.eqb (key x) id') with false; [exact IH|].
    symmetry. apply N.eqb_neq. congruence.
  - destruct (N.eqb (key x) id'); [now rewrite IH | exact IH].
Qed.

(** Deleting a document: for an unknown identifier nothing changes and the
    answer is [False]; otherwise the answer is [True], the document and all
    its chunks are gone, its file no longer exists, and every other
    document, the chunks of every other document and every other file are
    as before. *)
Theorem delete_document_removes (id : UUID) (fs : filesystem)
        (db : database) :
  match get_document id db with
  | None => delete_document id fs db = (false, fs, db)
  | Some d =>
      exists fs' db',
        delete_document id fs db = (true, fs', db') /\
        get_document id db' = None /\
        chunks_of id db' = [] /\
        fs' (file_path d) = None /\
        (forall id', id' <> id ->
                     get_document id' db' = get_document id' db /\
                     chunks_of id' db' = chunks_of id' db) /\
        (forall p, p <> file_path d -> fs' p = fs p)
  end.
Proof.
  unfold delete_document.
  destruct (get_document id db) as [d|] eqn:E; [|reflexivity].
  eexists. eexists. split; [reflexivity|].
  unfold get_document, chunks_of. cbn [documents chunks].
  split; [apply find_filter_same|].
  split; [apply filter_filter_same|].
  split; [|split].
  - destruct (fs (file_path d)) eqn:F; [|exact F].
    unfold remove_file. now rewrite str_eqb_refl.
  - intros id' Hne. split;
      [now apply find_filter_other | now apply filter_filter_other].
  - intros p Hp. destruct (fs (file_path d)); [|reflexivity].
    unfold remove_file. destruct (str_eqb p (file_path d)) eqn:S;
      [|reflexivity].
    apply str_eqb_eq in S. contradiction.
Qed.

Lemma find_map_update {A : Type} (key : A -> UUID) (f : A -> A) (id : UUID)
      (l : list A) (x : A) :
  (forall y, key (f y) = key y) ->
  find (fun y => N.eqb (key y) id) l = Some x ->
  find (fun y => N.eqb (key y) id)
       (List.map (fun y => if N.eqb (key y) id then f y else y) l)
  = Some (f x).
Proof.
  intros Hk. induction l as [|y r IH]; cbn; [discriminate|].
  destruct (N.eqb (key y) id) eqn:E.
  - intros [= ->]. cbn. now rewrite Hk, E.
  - cbn. rewrite E. exact IH.
Qed.

Lemma find_map_other {A : Type} (key : A -> UUID) (f : A -> A) (id id' : UUID)
      (l : list A) :
  (forall y, key (f y) = key y) -> id' <> id ->
  find (fun y => N.eqb (key y) id')
       (List.map (fun y => if N.eqb (key y) id then f y else y) l)
  = find (fun y => N.eqb (key y) id') l.
Proof.
  intros Hk Hne. induction l as [|y r IH]; [reflexivity|]. cbn.
  destruct (N.eqb (key y) id) eqn:E.
  - apply N.eqb_eq in E. rewrite Hk.
    replace (N.eqb (key y) id') with false; [exact IH|].
    symmetry. apply N.eqb_neq. congruence.
  - destruct (N.eqb (key y) id'); [reflexivity | exact IH].
Qed.

Lemma store_components_length (sc : float -> option float) (v : list float) :
  forall w, store_components sc v = Some w -> len w = len v.
Proof.
  induction v as [|x r IH]; cbn [store_components]; intros w.
  - now intros [= <-].
  - destruct (sc x) as [y|]; [|discriminate].
    destruct (store_components sc r) as [r'|]; [|discriminate].
    intros [= <-]. specialize (IH r' eq_refl). unfold len in *.
    cbn [List.length]. lia.
Qed.

(** Attaching an embedding, whatever the database makes of the single
    components. For an unknown chunk the answer is [None] and nothing
    changes. For a known chunk, a vector the column refuses, as it does
    every vector whose length is not 1536, makes the method raise with the
    store as it was; a vector the column takes has 1536 components, the
    chunk is returned and reads back with what the column stored, every
    other chunk is as before, no row changes its identifier, document, index
    or content, and the documents are untouched. *)
Theorem update_chunk_embedding_lookup (sc : float -> option float)
        (chunk_id : UUID) (e : list float) (db : database) :
  (if len e =? 1536 then True else vector_column sc e = None) /\
  match get_chunk chunk_id db, vector_column sc e with
  | None, _ => update_chunk_embedding sc chunk_id e db = (inr None, db)
  | Some c, None =>
      exists msg, update_chunk_embedding sc chunk_id e db = (inl msg, db)
  | Some c, Some v =>
      len e = 1536 /\ len v = 1536 /\
      exists db',
        update_chunk_embedding sc chunk_id e db
          = (inr (Some (set_embedding v c)), db') /\
        get_chunk chunk_id db' = Some (set_embedding v c) /\
        dc_embedding (set_embedding v c) = Some v /\
        (forall id', id' <> chunk_id -> get_chunk id' db' = get_chunk id' db) /\
        List.map (fun r => (dc_id r, dc_document_id r, dc_chunk_index r,
                            dc_content r)) (chunks db')
        = List.map (fun r => (dc_id r, dc_document_id r, dc_chunk_index r,
                              dc_content r)) (chunks db) /\
        documents db' = documents db
  end.
Proof.
  split.
  { unfold vector_column. now destruct (len e =? 1536). }
  unfold update_chunk_embedding.
  destruct (get_chunk chunk_id db) as [c|] eqn:E;
    [|destruct (vector_column sc e); reflexivity].
  destruct (vector_column sc e) as [v|] eqn:V; [|eexists; reflexivity].
  assert (L : len e = 1536 /\ len v = 1536).
  { unfold vector_column in V. destruct (len e =? 1536) eqn:B; [|discriminate].
    apply Z.eqb_eq in B. split; [exact B|].
    now rewrite (store_components_length sc e v V). }
  destruct L as [Le Lv]. split; [exact Le|]. split; [exact Lv|].
  eexists. split; [reflexivity|].
  unfold get_chunk in *. cbn [chunks documents].
  split; [|split; [|split; [|split]]].
  - now apply (find_map_update dc_id (set_embedding v)).
  - reflexivity.
  - intros id' Hne. now apply (find_map_other dc_id (set_embedding v)).
  - rewrite map_map. apply map_ext. intros r.
    now destruct (N.eqb (dc_id r) chunk_id).
  - reflexivity.
Qed.

(** Scenario: the placeholder embedding of dimension 384 is refused for an
    existing chunk, and one of dimension 1536 is stored, here by a database
    that keeps every component as it is. *)
Example embedding_of_other_dimension_refused :
  let db := mkDatabase [] [mkDocumentChunk 50 2 0 (of_string "other") None None]
                       51 in
  fst (update_chunk_embedding Some 50 (List.repeat 0.5%float 384) db)
    = inl "embedding refused by column Vector(1536)"%string /\
  snd (update_chunk_embedding Some 50 (List.repeat 0.5%float 384) db) = db /\
  option_map dc_embedding
    (get_chunk 50 (snd (update_chunk_embedding
                          Some 50 (List.repeat 0.5%float 1536) db)))
    = Some (Some (List.repeat 0.5%float 1536)).
Proof. vm_compute. repeat split. Qed.

End MaintenanceFacts.

(** ** Shape of the placeholder embedding, batches and tasks *)

Module EmbeddingShape.
Import Py PyFacts Search Store Ingestion Hashing Embedding EmbeddingFacts.
Import Maintenance.

Lemma length_le_bytes (n : nat) : forall x, List.length (le_bytes n x) = n.
Proof. induction n as [|k IH]; intros x; cbn; [reflexivity | now rewrite IH]. Qed.

Lemma length_md5_digest (msg : list byte) : List.length (md5_digest msg) = 16%nat.
Proof.
  unfold md5_digest. destruct (md5_blocks _ _ _) as [[[a b] c] d].
  now rewrite !length_app, !length_le_bytes.
Qed.

(** The hexadecimal digest has 32 characters. *)
Lemma length_md5_hexdigest (msg : list byte) :
  List.length (md5_hexdigest msg) = 32%nat.
Proof.
  unfold md5_hexdigest.
  assert (H : forall l : list byte,
             List.length
               (flat_map (fun b => [hex_digit (b / 16); hex_digit (b mod 16)]) l)
             = (2 * List.length l)%nat).
  { induction l as [|b r IH]; cbn [flat_map List.length app]; [reflexivity|].
    rewrite IH. lia. }
  rewrite H, length_md5_digest. reflexivity.
Qed.

Lemma list_set_middle {A : Type} (x y : A) (pre post : list A) :
  list_set (List.length pre) x (pre ++ y :: post) = Some (pre ++ x :: post).
Proof.
  induction pre as [|p r IH]; cbn; [reflexivity|]. now rewrite IH.
Qed.

(** The loop writes the values of the characters over the front of the
    placeholder and leaves the rest. *)
Lemma fill_front (chars : str) :
  forall pre rest,
    (List.length chars <= List.length rest)%nat ->
    fill (List.length pre) chars (pre ++ rest) =
    Some (pre ++ List.map hash_value chars ++ skipn (List.length chars) rest).
Proof.
  induction chars as [|c cs IH]; intros pre rest H; cbn [fill].
  - reflexivity.
  - destruct rest as [|z zs]; [cbn in H; lia|].
    fold (hash_value c). rewrite list_set_middle.
    replace (pre ++ hash_value c :: zs) with ((pre ++ [hash_value c]) ++ zs)
      by now rewrite <- app_assoc.
    replace (S (List.length pre)) with (List.length (pre ++ [hash_value c]))
      by (rewrite length_app; cbn; lia).
    rewrite IH by (cbn in H; lia).
    now rewrite <- app_assoc.
Qed.

Lemma skipn_repeat {A : Type} (x : A) (k n : nat) :
  skipn k (repeat x n) = repeat x (n - k).
Proof.
  revert n. induction k as [|k IH]; intros n; [now rewrite Nat.sub_0_r|].
  destruct n as [|n]; [reflexivity|]. cbn. apply IH.
Qed.

Lemma slice_to_as_firstn {A : Type} (s : list A) (j : Z) :
  0 <= j -> slice_to s j = firstn (Z.to_nat (Z.min j (len s))) s.
Proof.
  intros H. unfold slice_to, slice. pose proof (len_nonneg s).
  rewrite !adjust_nonneg_arg by lia. rewrite (Z.min_l 0) by lia.
  cbn [Z.to_nat skipn]. now rewrite Z.sub_0_r.
Qed.

Lemma embedding_body_closed (dim : Z) (text : str) (bytes : list byte) :
  0 <= dim -> text <> [] -> encode text = Some bytes ->
  embedding_body dim text =
  ReturnEmbedding
    (List.map hash_value
              (firstn (Z.to_nat (Z.min 32 dim)) (md5_hexdigest bytes))
     ++ repeat PrimFloat.zero (Z.to_nat (dim - Z.min 32 dim))).
Proof.
  intros Hdim Hne He. unfold embedding_body.
  destruct text as [|c r]; [contradiction|]. cbn [truthy negb].
  rewrite He.
  set (h := md5_hexdigest bytes).
  assert (Hlen : len h = 32).
  { unfold len, h. now rewrite length_md5_hexdigest. }
  rewrite Hlen. rewrite slice_to_as_firstn by lia.
  rewrite Hlen. replace (Z.min (Z.min 32 dim) 32) with (Z.min 32 dim) by lia.
  set (k := Z.to_nat (Z.min 32 dim)).
  assert (Hk : List.length (firstn k h) = k).
  { apply firstn_length_le. unfold h. rewrite length_md5_hexdigest.
    unfold k. lia. }
  pose proof (fill_front (firstn k h) []
                         (repeat PrimFloat.zero (Z.to_nat dim))) as F.
  cbn [List.length app] in F. rewrite F.
  - rewrite Hk, skipn_repeat. do 3 f_equal. unfold k. lia.
  - rewrite Hk, repeat_length. unfold k. lia.
Qed.

(** The embedding in closed form: for a text that is not empty and can be
    encoded, the first [min(32, VECTOR_DIMENSION)] components are
    [(ord(char) - 97) / 26] for the characters of the MD5 digest of the
    encoded text, and all the remaining components are zero. The embedding
    depends on the text through its digest only. *)
Theorem create_embedding_closed_form (dim : Z) (text : str)
        (bytes : list byte) (log : logger) :
  0 <= dim -> text <> [] -> encode text = Some bytes ->
  fst (create_embedding dim text log) =
  Some (List.map hash_value
                 (firstn (Z.to_nat (Z.min 32 dim)) (md5_hexdigest bytes))
        ++ repeat PrimFloat.zero (Z.to_nat (dim - Z.min 32 dim))).
Proof.
  intros Hdim Hne He. unfold create_embedding.
  now rewrite (embedding_body_closed dim text bytes Hdim Hne He).
Qed.

Lemma create_embedding_closed_form_witness :
  fst (create_embedding 1536 (of_string "abc") []) =
  Some (List.map hash_value
                 (firstn (Z.to_nat (Z.min 32 1536))
                         (md5_hexdigest [97; 98; 99]))
        ++ repeat PrimFloat.zero (Z.to_nat (1536 - Z.min 32 1536))).
Proof.
  apply (create_embedding_closed_form 1536 (of_string "abc") [97; 98; 99] []);
    [lia | discriminate | reflexivity].
Defined.

(** Every embedding the function creates passes [validate_embedding], for a
    positive dimension. *)
Theorem created_embedding_validates (dim : Z) (text : str) (log : logger) :
  0 < dim -> text <> [] -> encode text <> None ->
  exists e, fst (create_embedding dim text log) = Some e /\
            validate_embedding dim e = true.
Proof.
  intros Hdim Hne He.
  pose proof (embedding_body_ends dim text (Z.lt_le_incl _ _ Hdim)) as H.
  destruct text as [|c r]; [contradiction|].
  destruct (encode (c :: r)) as [bytes|]; [|contradiction].
  destruct H as [e [Hb Hl]]. exists e. unfold create_embedding. rewrite Hb.
  split; [reflexivity|].
  unfold validate_embedding. destruct e as [|x e']; [cbn in Hl; lia|].
  cbn [truthy negb]. now rewrite Hl, Z.eqb_refl.
Qed.

Lemma created_embedding_validates_witness :
  exists e, fst (create_embedding 384 (of_string "abc") []) = Some e /\
            validate_embedding 384 e = true.
Proof.
  apply (created_embedding_validates 384 (of_string "abc") []);
    [lia | discriminate | discriminate].
Defined.

Lemma create_embedding_fst (dim : Z) (text : str) (log : logger) :
  fst (create_embedding dim text log) =
  match embedding_body dim text with
  | ReturnEmbedding e => Some e
  | _ => None
  end.
Proof.
  unfold create_embedding. now destruct (embedding_body dim text).
Qed.

(** A batch has one result per text, in the order of the texts; each is what
    [create_embedding] gives for that text alone: [None] exactly for a text
    that is empty or cannot be encoded, and otherwise a vector of the
    configured dimension. *)
Theorem create_embeddings_batch_pointwise (dim : Z) (texts : list str)
        (log : logger) :
  0 <= dim ->
  fst (create_embeddings_batch dim texts log)
    = List.map (fun t => fst (create_embedding dim t [])) texts /\
  Forall2 (fun t o => (o = None <-> t = [] \/ encode t = None) /\
                      (forall e, o = Some e -> len e = dim))
          texts (fst (create_embeddings_batch dim texts log)).
Proof.
  intros Hdim.
  assert (E : forall log, fst (create_embeddings_batch dim texts log)
                          = List.map (fun t => fst (create_embedding dim t []))
                                     texts).
  { induction texts as [|t r IH]; intros lg; cbn [create_embeddings_batch];
      [reflexivity|].
    destruct (create_embedding dim t lg) as [o lg1] eqn:C.
    specialize (IH lg1).
    destruct (create_embeddings_batch dim r lg1) as [os lg2].
    cbn [fst List.map] in *. rewrite IH. f_equal.
    rewrite create_embedding_fst.
    rewrite <- (create_embedding_fst dim t lg), C. reflexivity. }
  split; [apply E|]. rewrite E.
  clear E. induction texts as [|t r IH]; cbn [List.map]; constructor;
    [|exact IH].
  rewrite create_embedding_fst.
  pose proof (embedding_body_ends dim t Hdim) as H.
  destruct t as [|c s].
  - rewrite H. split; [split; auto | discriminate].
  - destruct (encode (c :: s)) as [bytes|].
    + destruct H as [e [-> L]]. split.
      * split; [discriminate | intros [?|?]; discriminate].
      * intros e' [= <-]. exact L.
    + rewrite H. split; [split; auto | discriminate].
Qed.

Lemma create_embeddings_batch_pointwise_witness :
  fst (create_embeddings_batch 384 [of_string "abc"; []; [55296%N]] [])
    = List.map (fun t => fst (create_embedding 384 t []))
               [of_string "abc"; []; [55296%N]] /\
  Forall2 (fun t o => (o = None <-> t = [] \/ encode t = None) /\
                      (forall e, o = Some e -> len e = 384))
          [of_string "abc"; []; [55296%N]]
          (fst (create_embeddings_batch 384 [of_string "abc"; []; [55296%N]] [])).
Proof.
  apply (create_embeddings_batch_pointwise
           384 [of_string "abc"; []; [55296%N]] []).
  lia.
Defined.


End EmbeddingShape.

(** ** Fusion when the vector search finds nothing *)

Module FusionAlone.
Import Py PyFacts Search Fusion FusionFacts.
Local Open Scope float_scope.

Lemma dict_set_fresh (k : UUID) (v : combined) (d : dict) :
  ~ In k (List.map fst d) -> dict_set k v d = d ++ [(k, v)].
Proof.
  induction d as [|[k' v'] r IH]; cbn; intros H; [reflexivity|].
  destruct (N.eqb k' k) eqn:E.
  - apply N.eqb_eq in E. exfalso. apply H. now left.
  - rewrite IH; [reflexivity|]. intros Hin. apply H. now right.
Qed.

Lemma semantic_loop_fresh (w : float) (l : list SearchResult) :
  forall d,
    NoDup (List.map fst d ++ List.map chunk_id l) ->
    fold_left (add_semantic w) l d =
    d ++ List.map (fun r => (chunk_id r, semantic_entry w r)) l.
Proof.
  induction l as [|r rest IH]; intros d H; cbn [fold_left List.map].
  - now rewrite app_nil_r.
  - cbn [List.map] in H.
    assert (Hr : ~ In (chunk_id r) (List.map fst d)).
    { apply NoDup_remove_2 in H. intros Hin. apply H.
      apply in_or_app. now left. }
    unfold add_semantic at 2. fold (semantic_entry w r).
    rewrite (dict_set_fresh _ _ _ Hr).
    rewrite IH.
    + now rewrite <- app_assoc.
    + rewrite map_app. cbn [List.map fst]. now rewrite <- app_assoc.
Qed.

Lemma insert_desc_map {A B : Type} (f : A -> B) (key : B -> float) (x : A)
      (l : list A) :
  insert_desc key (f x) (List.map f l) =
  List.map f (insert_desc (fun a => key (f a)) x l).
Proof.
  induction l as [|y r IH]; cbn [List.map insert_desc]; [reflexivity|].
  destruct (PrimFloat.ltb (key (f x)) (key (f y))); cbn [List.map];
    [now rewrite IH | reflexivity].
Qed.

Lemma sorted_desc_map {A B : Type} (f : A -> B) (key : B -> float)
      (l : list A) :
  sorted_desc key (List.map f l) =
  List.map f (sorted_desc (fun a => key (f a)) l).
Proof.
  unfold sorted_desc. induction l as [|x r IH]; cbn [List.map fold_right];
    [reflexivity|].
  rewrite IH. apply insert_desc_map.
Qed.

Lemma slice_map {A B : Type} (f : A -> B) (s : list A) (i j : Z) :
  slice (List.map f s) i j = List.map f (slice s i j).
Proof.
  unfold slice, len. rewrite length_map. now rewrite skipn_map, firstn_map.
Qed.

(** With an empty vector list and distinct chunk ids in the semantic list,
    the fused list is the semantic list sorted by descending weighted score
    (equal scores keeping their order) and cut to [limit]: the vector weight
    plays no part. *)
Theorem combine_without_vector_results (semantic_results : list SearchResult)
        (semantic_weight vector_weight : float) (limit : Z) :
  NoDup (List.map chunk_id semantic_results) ->
  _combine_search_results semantic_results [] semantic_weight vector_weight
                          limit
  = slice_to (sorted_desc (fun r => similarity_score r * semantic_weight)
                          semantic_results)
             limit.
Proof.
  intros H. unfold _combine_search_results, combined_dict.
  cbn [fold_left]. rewrite semantic_loop_fresh by exact H.
  cbn [app]. unfold dict_values. rewrite map_map. cbn [snd].
  rewrite (sorted_desc_map (semantic_entry semantic_weight) combined_score).
  unfold slice_to. rewrite slice_map, map_map. cbn [semantic_entry result].
  cbn [combined_score]. apply map_id.
Qed.

Lemma combine_without_vector_results_witness :
  _combine_search_results [result_b; result_a] [] 0.7 0.3 10
  = slice_to (sorted_desc (fun r => similarity_score r * 0.7)
                          [result_b; result_a])
             10.
Proof.
  apply (combine_without_vector_results [result_b; result_a] 0.7 0.3 10).
  repeat constructor; cbn; intuition discriminate.
Defined.

End FusionAlone.

(** ** Accepted uploads, configured sizes, and stalls *)

Module UploadFacts.
Import Py PyFacts Search Store Chunker ChunkerFacts Ingestion IngestionFacts.
Import Maintenance MaintenanceFacts StoreFacts Upload.

Lemma existsb_allowed (t : str) :
  existsb (str_eqb t) allowed_types = true ->
  t = of_string "pdf" \/ t = of_string "docx" \/ t = of_string "txt" \/
  t = of_string "md" \/ t = of_string "rtf".
Proof.
  unfold allowed_types. cbn [List.map existsb]. intros H.
  repeat (apply orb_prop in H; destruct H as [H|H];
          [apply str_eqb_eq in H; tauto|]).
  discriminate.
Qed.

(** Upload validation and text extraction disagree on the file types: the
    types md and rtf pass [validate_file_type] as they are, but the extractor
    has no case for them, so such a document, even with its file in place,
    yields no text and [process_document] leaves it "failed" with the chunk
    table untouched. *)
Theorem accepted_type_without_extractor (fuel : nat) (fs : filesystem)
        (st : settings) (id : UUID) (db : database) (d : Document) :
  get_document id db = Some d ->
  file_type d = of_string "md" \/ file_type d = of_string "rtf" ->
  validate_file_type (file_type d) = Some (file_type d) /\
  extract_text_from_document fs d = None /\
  exists db',
    process_document fuel fs st id db = Some (Done, db') /\
    option_map status (get_document id db') = Some "failed"%string /\
    chunks db' = chunks db.
Proof.
  intros Hd Ht.
  assert (Hx : extract_text_from_document fs d = None).
  { unfold extract_text_from_document.
    destruct (fs (file_path d)); [|reflexivity].
    destruct Ht as [-> | ->]; reflexivity. }
  split; [destruct Ht as [-> | ->]; reflexivity|].
  split; [exact Hx|].
  unfold process_document. rewrite Hd, Hx.
  eexists. split; [reflexivity|]. split; [|reflexivity].
  apply (status_after_update id "failed" _ (set_status "processing" d)).
  now apply get_document_updated.
Qed.

Lemma accepted_type_without_extractor_witness :
  validate_file_type (of_string "md") = Some (of_string "md") /\
  extract_text_from_document
    words_fs
    (mkDocument 1 9 (of_string "report") (of_string "/uploads/report") 120
                (of_string "md") "pending") = None /\
  exists db',
    process_document 5 words_fs (mkSettings 1000 200) 1 (sample_db "md")
      = Some (Done, db') /\
    option_map status (get_document 1 db') = Some "failed"%string /\
    chunks db' = chunks (sample_db "md").
Proof.
  apply (accepted_type_without_extractor
           5 words_fs (mkSettings 1000 200) 1%N (sample_db "md")
           (mkDocument 1 9 (of_string "report") (of_string "/uploads/report")
                       120 (of_string "md") "pending"));
    [reflexivity | now left].
Defined.

(** What validation lets through: exactly the five types, in any letter
    case, returned in lower case; in particular "doc", which the extractor
    would read, is rejected. *)
Lemma validate_file_type_accepts (v t : str) :
  validate_file_type v = Some t <->
  t = lower v /\
  (t = of_string "pdf" \/ t = of_string "docx" \/ t = of_string "txt" \/
   t = of_string "md" \/ t = of_string "rtf").
Proof.
  unfold validate_file_type. split.
  - destruct (existsb _ _) eqn:E; [|discriminate]. intros [= <-].
    split; [reflexivity | now apply existsb_allowed].
  - intros [-> H]. replace (existsb (str_eqb (lower v)) allowed_types) with true;
      [reflexivity|].
    symmetry. destruct H as [H|[H|[H|[H|H]]]]; rewrite H; reflexivity.
Qed.

(** A stall is permanent: if one iteration of the chunking loop leaves
    [start] where it was, the guard holds after every further iteration and
    the loop never ends. *)
Theorem stalled_loop_never_ends (text : str) (cs ov : Z) (st : loop_state) :
  loop_cond text st = true ->
  st_start (chunk_step text cs ov st) = st_start st ->
  forall n, st_start (run_loop n text cs ov st) = st_start st /\
            loop_cond text (run_loop n text cs ov st) = true.
Proof.
  intros Hc Hs n. revert st Hc Hs.
  induction n as [|k IH]; intros st Hc Hs; cbn [run_loop]; [now split|].
  rewrite Hc.
  assert (Hc' : loop_cond text (chunk_step text cs ov st) = true).
  { unfold loop_cond in *. now rewrite Hs. }
  assert (Hs' : st_start (chunk_step text cs ov (chunk_step text cs ov st))
                = st_start (chunk_step text cs ov st)).
  { unfold chunk_step at 1 3. cbn [st_start]. now rewrite Hs. }
  destruct (IH _ Hc' Hs') as [E C]. split; [congruence | exact C].
Qed.

Lemma stalled_loop_never_ends_witness :
  st_start (run_loop 50 stall_text 1000 200 (mkState 801 [])) = 801 /\
  loop_cond stall_text (run_loop 50 stall_text 1000 200 (mkState 801 []))
  = true.
Proof.
  apply (stalled_loop_never_ends stall_text 1000 200 (mkState 801 []));
    vm_compute; reflexivity.
Defined.

Lemma run_loop_sized (text : str) (cs ov : Z) (n : nat) :
  0 < cs -> sized cs (run_loop n text cs ov initial).
Proof.
  intros Hcs. apply run_loop_invariant.
  - intros st. now apply chunk_step_sized.
  - split; [cbn; lia | constructor].
Qed.

(** With a configured [CHUNK_SIZE] that passed its validator (100 to 10000),
    whatever [chunk_document] stores for a document without chunks, called
    without sizes of its own, is at most [CHUNK_SIZE] characters per chunk. *)
Theorem configured_chunk_size_bounds_rows (fuel : nat) (fs : filesystem)
        (size overlap : Z) (id : UUID) (db db1 : database) (e : task_end) :
  validate_chunk_size size = Some size ->
  chunks_of id db = [] ->
  chunk_document fuel fs (mkSettings size overlap) id None None db
    = Some (e, db1) ->
  Forall (fun row => len (dc_content row) <= size) (chunks_of id db1).
Proof.
  intros Hv He H.
  assert (Hs : 0 < size).
  { unfold validate_chunk_size in Hv.
    destruct ((size <? 100) || (size >? 10000)) eqn:B; [discriminate|].
    apply orb_false_elim in B. destruct B as [B _].
    apply Z.ltb_ge in B. lia. }
  revert H. unfold chunk_document. cbn [or_default CHUNK_SIZE CHUNK_OVERLAP].
  destruct (get_document id db) as [d|];
    [|intros [= <- <-]; rewrite He; constructor].
  destruct (truthy (get_document_chunks id db));
    [intros [= <- <-]; rewrite He; constructor|].
  destruct (extract_text_from_document fs d) as [[|c r]|];
    try (intros [= <- <-]; rewrite He; constructor).
  destruct (create_document_chunks fuel (c :: r) size overlap)
    as [texts|] eqn:C; [|intros [=]].
  intros [= <- <-].
  set (extra := [("overlap"%string, overlap)]).
  destruct (new_rows_facts id texts 0 (next_id db)) as (Rc & _ & Rf).
  unfold chunks_of. rewrite save_chunks_new_rows. cbn [chunks].
  unfold chunks_of in He. rewrite filter_app, He. cbn [app].
  rewrite filter_all
    by (eapply Forall_impl; [|exact Rf]; intros row (-> & _);
        apply N.eqb_refl).
  assert (Ht : Forall (fun t => len t <= size) texts).
  { destruct (create_document_chunks_result _ _ _ _ _ C) as [-> | ->];
      [constructor | apply (run_loop_sized (c :: r) size _ fuel Hs)]. }
  apply (proj1 (Forall_map dc_content (fun t => len t <= size) _)).
  rewrite Rc. exact Ht.
Qed.

Lemma configured_chunk_size_bounds_rows_witness :
  Forall (fun row => len (dc_content row) <= 100)
         (chunks_of 1
            (save_chunks 1 0 [of_string "hello world"]
                         [("overlap"%string, 20)] (sample_db "txt"))).
Proof.
  apply (configured_chunk_size_bounds_rows
           5 words_fs 100 20 1%N (sample_db "txt") _ Done);
    reflexivity.
Defined.

End UploadFacts.
